(** * bogdanfinn-go-wrapper: request pipeline, retry driver and session

    A shallow embedding of the wrapper around the TLS-fingerprinting HTTP
    client: the helper functions ([formatHeaders], [formatBody],
    [buildURL], [handleResponse]) and the session methods of
    [wrapper.go] ([executeRequest], [executeWithRetry], the cookie and
    proxy pass-throughs, [Close]).

    Go strings are byte strings ([string]); Go maps are [gmap]s, with the
    order of a [range] loop left to the runtime; the transport, the
    clock and the random source are explicit state. *)

From Stdlib Require Import ZArith String Ascii DecimalString.
From stdpp Require Import base tactics option list gmap strings sorting.

Local Open Scope string_scope.
Local Open Scope list_scope.
Local Open Scope Z_scope.

(** ** Package [strings] *)

Module GoStrings.

(** The six ASCII white-space bytes of [asciiSpace]. *)
Definition ascii_space (c : ascii) : bool :=
  match N_of_ascii c with
  | 9%N | 10%N | 11%N | 12%N | 13%N | 32%N => true
  | _ => false
  end.

(** UTF-8 encodings of U+0085 and U+00A0. *)
Definition space2 (c1 c2 : ascii) : bool :=
  match N_of_ascii c1, N_of_ascii c2 with
  | 194%N, 133%N | 194%N, 160%N => true
  | _, _ => false
  end.

(** UTF-8 encodings of U+1680, U+2000..U+200A, U+2028, U+2029, U+202F,
    U+205F and U+3000, the remaining runes of [unicode.IsSpace]. *)
Definition space3 (c1 c2 c3 : ascii) : bool :=
  match N_of_ascii c1, N_of_ascii c2, N_of_ascii c3 with
  | 225%N, 154%N, 128%N => true
  | 226%N, 128%N, n => ((128 <=? n) && (n <=? 138) || (n =? 168) || (n =? 169) || (n =? 175))%N
  | 226%N, 129%N, 159%N => true
  | 227%N, 128%N, 128%N => true
  | _, _, _ => false
  end.

(** [TrimLeftFunc s unicode.IsSpace]: drop leading white-space runes. *)
Fixpoint TrimLeft (s : string) : string :=
  match s with
  | EmptyString => EmptyString
  | String c1 r1 =>
      if ascii_space c1 then TrimLeft r1
      else match r1 with
           | EmptyString => s
           | String c2 r2 =>
               if space2 c1 c2 then TrimLeft r2
               else match r2 with
                    | EmptyString => s
                    | String c3 r3 => if space3 c1 c2 c3 then TrimLeft r3 else s
                    end
           end
  end.

(** The same scan on the reversed byte sequence: a trailing rune shows
    up with its bytes in reverse order. *)
Fixpoint TrimLeft_rev (l : list ascii) : list ascii :=
  match l with
  | [] => []
  | c1 :: r1 =>
      if ascii_space c1 then TrimLeft_rev r1
      else match r1 with
           | [] => l
           | c2 :: r2 =>
               if space2 c2 c1 then TrimLeft_rev r2
               else match r2 with
                    | [] => l
                    | c3 :: r3 => if space3 c3 c2 c1 then TrimLeft_rev r3 else l
                    end
           end
  end.

Definition TrimRight (s : string) : string :=
  string_of_list_ascii (rev (TrimLeft_rev (rev (list_ascii_of_string s)))).

(** [strings.TrimSpace]. *)
Definition TrimSpace (s : string) : string := TrimRight (TrimLeft s).

(** [strings.Contains s substr]. *)
Fixpoint Contains (s substr : string) : bool :=
  if String.prefix substr s then true
  else match s with
       | EmptyString => false
       | String _ r => Contains r substr
       end.

(** Lower-casing of the ASCII letters. *)
Definition lower_ascii (c : ascii) : ascii :=
  let n := N_of_ascii c in
  if ((65 <=? n) && (n <=? 90))%N then ascii_of_N (n + 32) else c.

Fixpoint ToLowerASCII (s : string) : string :=
  match s with
  | EmptyString => EmptyString
  | String c r => String (lower_ascii c) (ToLowerASCII r)
  end.

(** Every byte of [s] passes the test [P]. *)
Fixpoint all_bytes (P : ascii → bool) (s : string) : bool :=
  match s with
  | EmptyString => true
  | String c r => P c && all_bytes P r
  end.

Definition is_ascii (s : string) : bool := all_bytes (λ c, (N_of_ascii c <? 128)%N) s.

(** The test [strings.TrimSpace(s) == ""] the code uses for keys, names
    and URLs. *)
Definition blank (s : string) : bool := String.eqb (TrimSpace s) "".

End GoStrings.

Export GoStrings.

(** ** Errors

    A Go [error] is its message; [fmt.Errorf] with [%w] and [fmt.Sprintf]
    with [%v] both splice the message of the wrapped error in. *)

Inductive Err (A : Type) : Type :=
| Ok (a : A)
| Fail (msg : string).
Arguments Ok {A} a.
Arguments Fail {A} msg.

(** ** Package [net/url]: query escaping, [Values], [ParseQuery] *)

Module NetURL.

(** [url.Values], a [map[string][]string]. *)
Abbreviation Values := (gmap string (list string)).

(** Bytes left alone by [QueryEscape]: letters, digits and [-_.~]. *)
Definition unreserved (c : ascii) : bool :=
  let n := N_of_ascii c in
  ((48 <=? n) && (n <=? 57) || (65 <=? n) && (n <=? 90) || (97 <=? n) && (n <=? 122)
   || (n =? 45) || (n =? 95) || (n =? 46) || (n =? 126))%N.

(** [upperhex[n]]. *)
Definition upperhex (n : N) : ascii :=
  if (n <? 10)%N then ascii_of_N (48 + n) else ascii_of_N (55 + n).

(** [url.QueryEscape]. *)
Fixpoint QueryEscape (s : string) : string :=
  match s with
  | EmptyString => EmptyString
  | String c r =>
      if unreserved c then String c (QueryEscape r)
      else if Ascii.eqb c " " then String "+" (QueryEscape r)
      else String "%" (String (upperhex (N_of_ascii c / 16))
                         (String (upperhex (N_of_ascii c mod 16)) (QueryEscape r)))
  end.

Definition ishex (c : ascii) : bool :=
  let n := N_of_ascii c in
  ((48 <=? n) && (n <=? 57) || (97 <=? n) && (n <=? 102) || (65 <=? n) && (n <=? 70))%N.

Definition unhex (c : ascii) : N :=
  let n := N_of_ascii c in
  if ((48 <=? n) && (n <=? 57))%N then (n - 48)%N
  else if ((97 <=? n) && (n <=? 102))%N then (n - 97 + 10)%N
  else if ((65 <=? n) && (n <=? 70))%N then (n - 65 + 10)%N
  else 0%N.

(** [url.QueryUnescape]; [None] is the [EscapeError]. *)
Fixpoint QueryUnescape (s : string) : option string :=
  match s with
  | EmptyString => Some EmptyString
  | String c r =>
      if Ascii.eqb c "%" then
        match r with
        | String a (String b r') =>
            if ishex a && ishex b
            then String (ascii_of_N (unhex a * 16 + unhex b)) <$> QueryUnescape r'
            else None
        | _ => None
        end
      else if Ascii.eqb c "+" then String " " <$> QueryUnescape r
      else String c <$> QueryUnescape r
  end.

(** [strings.Cut s sep] for a one-byte separator, without the flag. *)
Fixpoint Cut (sep : ascii) (s : string) : string * string :=
  match s with
  | EmptyString => (EmptyString, EmptyString)
  | String c r =>
      if Ascii.eqb c sep then (EmptyString, r)
      else let '(a, b) := Cut sep r in (String c a, b)
  end.

(** The pieces the [for query != ""] loop of [parseQuery] cuts off at
    each ampersand. *)
Fixpoint pieces (s : string) : list string :=
  match s with
  | EmptyString => [EmptyString]
  | String c r =>
      if Ascii.eqb c "&" then EmptyString :: pieces r
      else match pieces r with
           | p :: ps => String c p :: ps
           | [] => [String c EmptyString]
           end
  end.

(** One turn of the loop: the decoded pair, or [None] when the piece is
    skipped (empty, holding a semicolon, or badly escaped). *)
Definition parse_piece (key : string) : option (string * string) :=
  if Contains key ";" then None
  else if String.eqb key "" then None
  else let '(k, v) := Cut "=" key in
       k' ← QueryUnescape k;
       v' ← QueryUnescape v;
       Some (k', v').

Definition parse_pairs (query : string) : list (string * string) :=
  omap parse_piece (pieces query).

(** [Values.Add] and [Values.Set]. *)
Definition Values_Add (v : Values) (key value : string) : Values :=
  <[key := default [] (v !! key) ++ [value]]> v.

Definition Values_Set (v : Values) (key value : string) : Values :=
  <[key := [value]]> v.

(** [url.ParseQuery], dropping the error as [URL.Query] does. *)
Definition ParseQuery (query : string) : Values :=
  foldl (λ m kv, Values_Add m kv.1 kv.2) ∅ (parse_pairs query).

(** [url.URL], with the fields the wrapper reads or writes and the
    ones that make up the rest of the rendered URL. *)
Record URL : Type := mkURL {
  Scheme : string;
  Opaque : string;
  Host : string;
  Path : string;
  ForceQuery : bool;
  RawQuery : string;
  Fragment : string;
}.

Definition set_RawQuery (u : URL) (q : string) : URL :=
  {| Scheme := Scheme u; Opaque := Opaque u; Host := Host u; Path := Path u;
     ForceQuery := ForceQuery u; RawQuery := q; Fragment := Fragment u |}.

(** [URL.Query]. *)
Definition Query (u : URL) : Values := ParseQuery (RawQuery u).

(** The bytes [Values.Encode] can emit. *)
Definition query_byte (c : ascii) : bool :=
  unreserved c || Ascii.eqb c "%" || Ascii.eqb c "+" || Ascii.eqb c "&" || Ascii.eqb c "=".

Definition query_safe (s : string) : bool := all_bytes query_byte s.

End NetURL.

Export NetURL.

(** ** Data model ([types.go], [net/http]) *)

(** The dynamic type of a body ([interface{}]): the two shapes the
    encoders assert on, and every other value behind an opaque handle. *)
Inductive Any : Type :=
| AnyNil
| AnyString (s : string)
| AnyMap (m : gmap string string)
| AnyOther (handle : nat).

Inductive SameSite : Type :=
| SameSiteDefaultMode | SameSiteLaxMode | SameSiteStrictMode | SameSiteNoneMode.

Module Cookie.
Record t : Type := mk {
  Name : string;
  Value : string;
  Path : string;
  Domain : string;
  MaxAge : Z;
  Secure : bool;
  HttpOnly : bool;
  SameSite : SameSite;
}.
End Cookie.

(** [http.Header]. *)
Abbreviation Header := (gmap string (list string)).

(** [http.Request]. [Body] is the reader the request was created with,
    named by the bytes it was created over; how far a transport has read
    it belongs to the state of the transport, and nothing below says
    which bytes a later attempt transmits. *)
Module Request.
Record t : Type := mk {
  Method : string;
  URL : NetURL.URL;
  Body : option string;
  Header : Header;
}.
Definition set_Header (req : t) (h : gmap string (list string)) : t :=
  {| Method := Method req; URL := URL req; Body := Body req; Header := h |}.
End Request.

(** [http.Response] as [handleResponse] reads it: [Header] is the map
    as the transport left it, [None] for a nil map; [Location] is [Some]
    when [resp.Location()] gives a non-nil URL and no error, [ReadAll] is
    the outcome of [io.ReadAll(resp.Body)]. *)
Module HttpResponse.
Record t : Type := mk {
  StatusCode : Z;
  Header : option Header;
  Cookies : list Cookie.t;
  Location : option NetURL.URL;
  ReadAll : Err string;
}.
End HttpResponse.

(** [Response]; a nil pointer, slice or map is [None] (or the empty
    list for [Cookies]). *)
Module Response.
Record t : Type := mk {
  Url : option NetURL.URL;
  Body : option string;
  StatusCode : Z;
  Headers : option Header;
  Cookies : list Cookie.t;
  Error : string;
}.
Definition set_Error (r : t) (e : string) : t :=
  {| Url := Url r; Body := Body r; StatusCode := StatusCode r;
     Headers := Headers r; Cookies := Cookies r; Error := e |}.
(** The zero value, also what [Response{Error: e}] fills in. *)
Definition zero : t :=
  {| Url := None; Body := None; StatusCode := 0; Headers := None;
     Cookies := []; Error := "" |}.
End Response.

(** [RequestOptions]; a nil map is [None]. *)
Module RequestOptions.
Record t : Type := mk {
  Url : string;
  Headers : option (gmap string string);
  Body : Any;
  Params : option (gmap string string);
}.
Definition set_Headers (r : t) (h : option (gmap string string)) : t :=
  {| Url := Url r; Headers := h; Body := Body r; Params := Params r |}.
End RequestOptions.

(** [Session]; [Client] is [None] once the handle has been released. *)
Record Session (T : Type) : Type := mkSession {
  Client : option T;
  UserAgent : string;
  SecChUa : string;
  SecChUaPlatform : string;
  MaxRetries : Z;
}.
Arguments mkSession {T}.
Arguments Client {T}.
Arguments UserAgent {T}.
Arguments SecChUa {T}.
Arguments SecChUaPlatform {T}.
Arguments MaxRetries {T}.

Definition set_Client {T} (s : Session T) (c : option T) : Session T :=
  {| Client := c; UserAgent := UserAgent s; SecChUa := SecChUa s;
     SecChUaPlatform := SecChUaPlatform s; MaxRetries := MaxRetries s |}.

(** ** The platform

    What the wrapper calls but does not define: the Go runtime and
    standard library, [fhttp], and the TLS client. *)

(** Library functions without state. [range m] is the order in which the
    runtime visits a map in a [range] statement; Go leaves it unspecified,
    so nothing but its being an enumeration of the map is known. Go may
    also visit the same map in another order the next time, while [range]
    gives one order per map: the theorems about the several attempts of a
    request are therefore stated for requests that need not be equal,
    and for transports described for every request they may be sent.
    [ToLower] is
    [strings.ToLower], pinned down on ASCII input only. [url_Parse] and
    [URL_String] are [url.Parse] and [URL.String]: rendering a parsed URL,
    with its query as parsed or replaced by bytes [Values.Encode] emits,
    parses again to that query. [Sprintf_w e] is what [fmt.Sprintf]
    prints for an error under the verb [%w], which it does not support. *)
Class GoLib : Type := {
  range : ∀ {V : Type}, gmap string V → list (string * V);
  range_perm : ∀ (V : Type) (m : gmap string V), range m ≡ₚ map_to_list m;
  ToLower : string → string;
  ToLower_ascii : ∀ s, is_ascii s = true → ToLower s = ToLowerASCII s;
  url_Parse : string → Err URL;
  URL_String : URL → string;
  Parse_String : ∀ s u q,
    url_Parse s = Ok u →
    q = RawQuery u ∨ query_safe q = true →
    ∃ u', url_Parse (URL_String (set_RawQuery u q)) = Ok u' ∧ RawQuery u' = q;
  json_Marshal : Any → Err string;
  multipart_WriteField : string → string → string → string → Err string;
  multipart_Close : string → string → Err string;
  http_NewRequest : string → string → option string → Err Request.t;
  HeaderOrderKey : string;
  Sprintf_w : string → string;
}.

(** The TLS client ([tls_client.HttpClient]) with state [T], and the
    cookie-jar constructor, whose result the code tests for nil. *)
Class Transport (T : Type) : Type := {
  Jar : Type;
  NewCookieJar : option Jar;
  client_Do : T → Request.t → Err HttpResponse.t * T;
  client_GetCookies : T → option URL → list (option Cookie.t) * T;
  client_SetCookies : T → URL → list Cookie.t → T;
  client_SetCookieJar : T → Jar → T;
  client_SetProxy : T → string → T;
}.

(** Calls that leave the process, in the order they are made. *)
Inductive Event : Type :=
| EvDo (req : Request.t)
| EvSleep (nanoseconds : Z)
| EvNewCookieJar
| EvGetCookies (u : option URL)
| EvSetCookies (u : URL) (cs : list Cookie.t)
| EvSetCookieJar
| EvSetProxy (proxy : string).

(** The state a method runs in: the receiver ([None] for a nil
    [*Session]), the calls made so far, and the bytes [crypto/rand] is
    going to deliver. *)
Record World (T : Type) : Type := mkWorld {
  self : option (Session T);
  trace : list Event;
  entropy : nat → ascii;
}.
Arguments mkWorld {T}.
Arguments self {T}.
Arguments trace {T}.
Arguments entropy {T}.

Definition M (T A : Type) : Type := World T → A * World T.

Definition ret {T A} (a : A) : M T A := λ w, (a, w).
Definition bind {T A B} (m : M T A) (k : A → M T B) : M T B :=
  λ w, let '(a, w') := m w in k a w'.

Notation "'do' x <- m ; k" := (bind m (λ x, k))
  (at level 10, x name, m at level 100, k at level 200).

Definition emit {T} (e : Event) : M T unit :=
  λ w, (tt, {| self := self w; trace := trace w ++ [e]; entropy := entropy w |}).

Definition set_self {T} (s : option (Session T)) : M T unit :=
  λ w, (tt, {| self := s; trace := trace w; entropy := entropy w |}).

Definition get_self {T} : M T (option (Session T)) := λ w, (self w, w).

(** [n] bytes from [crypto/rand]. *)
Definition rand_Read {T} (n : nat) : M T (list ascii) :=
  λ w, (entropy w <$> seq 0 n,
        {| self := self w; trace := trace w; entropy := λ i, entropy w (n + i)%nat |}).

(** ** Helpers ([formatHeaders], [formatBody], [buildURL], [handleResponse]) *)

(** Two's-complement wrap-around of an [int64]. *)
Definition wrap64 (z : Z) : Z := (z + 2 ^ 63) mod 2 ^ 64 - 2 ^ 63.

(** [%d] of an [int]. *)
Definition Itoa (z : Z) : string := NilZero.string_of_int (Z.to_int z).

Definition lowerhex (n : N) : ascii :=
  if (n <? 10)%N then ascii_of_N (48 + n) else ascii_of_N (87 + n).

(** [fmt.Sprintf("%x", buf)]. *)
Fixpoint hex (buf : list ascii) : string :=
  match buf with
  | [] => EmptyString
  | c :: r => String (lowerhex (N_of_ascii c / 16))
                (String (lowerhex (N_of_ascii c mod 16)) (hex r))
  end.

(** The encoder [formatBody] dispatches to. *)
Inductive Encoder : Type := FormURLEncoded | TextPlain | Multipart | JSON.

#[global] Instance Encoder_eq_dec : EqDecision Encoder.
Proof. solve_decision. Defined.

Section Helpers.
Context `{Lib : GoLib} {T : Type} `{Tr : !Transport T}.

(** [Values.Encode]: the keys are collected in [range] order, sorted,
    and every value is written as [key=value], an ampersand before all
    but the first. *)
Definition Values_Encode (v : Values) : string :=
  if (size v =? 0)%nat then ""
  else
    let keys := merge_sort String.le ((range v).*1) in
    foldl (λ buf k,
             foldl (λ buf x,
                      (if String.eqb buf "" then buf else buf +:+ "&")
                        +:+ QueryEscape k +:+ "=" +:+ QueryEscape x)
                   buf (default [] (v !! k)))
          "" keys.

(** The [switch normalizedKey] of [formatHeaders]. *)
Definition applyDefault (s : Session T) (normalizedKey value : string) : string :=
  if String.eqb normalizedKey "user-agent" then
    if String.eqb value "" || String.eqb value "default" then UserAgent s else value
  else if String.eqb normalizedKey "sec-ch-ua" then
    if String.eqb value "" || String.eqb value "default" then SecChUa s else value
  else if String.eqb normalizedKey "sec-ch-ua-platform" then
    if String.eqb value "" || String.eqb value "default" then SecChUaPlatform s else value
  else value.

(** The [for key, value := range headers] loop of [formatHeaders]. *)
Fixpoint formatHeaders_loop (s : Session T) (entries : list (string * string))
    (formattedHeaders : Header) (order : list string) : Err (Header * list string) :=
  match entries with
  | [] => Ok (formattedHeaders, order)
  | (key, value) :: rest =>
      if blank key then Fail "header key cannot be empty"
      else
        let normalizedKey := ToLower key in
        let value := applyDefault s normalizedKey value in
        formatHeaders_loop s rest (<[key := [value]]> formattedHeaders) (order ++ [key])
  end.

Definition formatHeaders (s : Session T) (headers : option (gmap string string))
    : Err Header :=
  match headers with
  | None => Ok ∅
  | Some h =>
      match formatHeaders_loop s (range h) ∅ [] with
      | Fail e => Fail e
      | Ok (formattedHeaders, order) => Ok (<[HeaderOrderKey := order]> formattedHeaders)
      end
  end.

(** The content-type lookup of [formatBody]: the first entry, in [range]
    order, whose lower-cased key is [content-type]. *)
Fixpoint findContentType (entries : list (string * string)) : string :=
  match entries with
  | [] => ""
  | (key, value) :: rest =>
      if String.eqb (ToLower key) "content-type" then ToLower (TrimSpace value)
      else findContentType rest
  end.

(** The content type [formatBody] dispatches on: the declared one, or
    the one inferred from the dynamic type of the body. *)
Definition resolveContentType (headers : option (gmap string string)) (body : Any)
    : string :=
  let contentType :=
    match headers with
    | None => ""
    | Some h => findContentType (range h)
    end in
  if String.eqb contentType "" then
    match body with
    | AnyString _ => "text/plain"
    | _ => "application/json"
    end
  else contentType.

(** The [switch] of [formatBody]. *)
Definition selectEncoder (contentType : string) : Encoder :=
  if Contains contentType "application/x-www-form-urlencoded" then FormURLEncoded
  else if Contains contentType "text/plain" then TextPlain
  else if Contains contentType "multipart/form-data" then Multipart
  else JSON.

Definition formatFormURLEncoded (body : Any) : Err (option string * string) :=
  match body with
  | AnyMap formData =>
      let data := foldl (λ d kv, Values_Set d kv.1 kv.2) ∅ (range formData) in
      Ok (Some (Values_Encode data), "application/x-www-form-urlencoded")
  | _ => Fail "body must be map[string]string for application/x-www-form-urlencoded"
  end.

Definition formatTextPlain (body : Any) : Err (option string * string) :=
  match body with
  | AnyString bodyStr => Ok (Some bodyStr, "text/plain")
  | _ => Fail "body must be string for text/plain"
  end.

(** [multipart.NewWriter] draws the boundary: thirty random bytes in
    hexadecimal. *)
Definition randomBoundary : M T string :=
  do buf <- rand_Read 30; ret (hex buf).

(** [Writer.FormDataContentType] for such a boundary, which needs no
    quoting. *)
Definition FormDataContentType (boundary : string) : string :=
  "multipart/form-data; boundary=" +:+ boundary.

(** The [WriteField] loop of [formatMultipartFormData]. *)
Fixpoint writeFields (boundary : string) (entries : list (string * string))
    (buf : string) : Err string :=
  match entries with
  | [] => Ok buf
  | (k, v) :: rest =>
      match multipart_WriteField boundary buf k v with
      | Fail err => Fail ("error writing field " +:+ k +:+ ": " +:+ err)
      | Ok buf' => writeFields boundary rest buf'
      end
  end.

Definition formatMultipartFormData (body : Any) : M T (Err (option string * string)) :=
  match body with
  | AnyMap formData =>
      do boundary <- randomBoundary;
      match writeFields boundary (range formData) "" with
      | Fail e => ret (Fail e)
      | Ok buf =>
          match multipart_Close boundary buf with
          | Fail err => ret (Fail ("error closing multipart writer: " +:+ err))
          | Ok buf' => ret (Ok (Some buf', FormDataContentType boundary))
          end
      end
  | _ => ret (Fail "body must be map[string]string for multipart/form-data")
  end.

Definition formatJSON (body : Any) : Err (option string * string) :=
  match json_Marshal body with
  | Fail err => Fail ("error marshaling body to JSON: " +:+ err)
  | Ok bodyJSON => Ok (Some bodyJSON, "application/json")
  end.

(** [formatBody]: the reader (its content, [None] for nil) and the
    content type, or the error. *)
Definition formatBody (headers : option (gmap string string)) (body : Any)
    : M T (Err (option string * string)) :=
  match body with
  | AnyNil => ret (Ok (None, ""))
  | _ =>
      match selectEncoder (resolveContentType headers body) with
      | FormURLEncoded => ret (formatFormURLEncoded body)
      | TextPlain => ret (formatTextPlain body)
      | Multipart => formatMultipartFormData body
      | JSON => ret (formatJSON body)
      end
  end.

(** The [for key, value := range params] loop of [buildURL]. *)
Definition addParams (queryParams : Values) (entries : list (string * string)) : Values :=
  foldl (λ q kv, if blank kv.1 then q else Values_Add q kv.1 kv.2) queryParams entries.

Definition buildURL (baseURL : string) (params : option (gmap string string))
    : Err string :=
  if blank baseURL then Fail "baseURL cannot be empty"
  else
    match url_Parse baseURL with
    | Fail err => Fail ("error parsing URL: " +:+ err)
    | Ok parsedURL =>
        match params with
        | None => Ok (URL_String parsedURL)
        | Some p =>
            if (size p =? 0)%nat then Ok (URL_String parsedURL)
            else
              let queryParams := addParams (Query parsedURL) (range p) in
              Ok (URL_String (set_RawQuery parsedURL (Values_Encode queryParams)))
        end
    end.

(** [IsValid]. *)
Definition IsValid (s : option (Session T)) : bool :=
  match s with
  | Some s => bool_decide (is_Some (Client s))
  | None => false
  end.

Definition emptyResponse (e : string) : Response.t :=
  {| Response.Url := None; Response.Cookies := []; Response.Headers := None;
     Response.Body := None; Response.StatusCode := 0; Response.Error := e |}.

(** The response [handleResponse] builds once the transport has
    answered and the body has been read. *)
Definition successResponse (req : Request.t) (resp : HttpResponse.t) (body : string)
    : Response.t :=
  {| Response.Url := Some (default (Request.URL req) (HttpResponse.Location resp));
     Response.Cookies := HttpResponse.Cookies resp;
     Response.Headers := HttpResponse.Header resp;
     Response.Body := Some body;
     Response.StatusCode := HttpResponse.StatusCode resp;
     Response.Error := "" |}.

(** [handleResponse]. The headers stored in [req.Header] are
    overwritten on every call, so [req] itself is not threaded. *)
Definition handleResponse (request : RequestOptions.t) (req : Request.t)
    (err : option string) : M T Response.t :=
  match err with
  | Some e => ret (emptyResponse ("Error creating request: " +:+ e))
  | None =>
      do s <- get_self;
      match s with
      | None => ret (emptyResponse "Session or client is nil")
      | Some s =>
          match Client s with
          | None => ret (emptyResponse "Session or client is nil")
          | Some client =>
              match formatHeaders s (RequestOptions.Headers request) with
              | Fail e => ret (emptyResponse ("Error formatting headers: " +:+ e))
              | Ok headers =>
                  let req := Request.set_Header req headers in
                  do _ <- emit (EvDo req);
                  let '(result, client') := client_Do client req in
                  do _ <- set_self (Some (set_Client s (Some client')));
                  match result with
                  | Fail e => ret (emptyResponse ("Request error: " +:+ e))
                  | Ok resp =>
                      match HttpResponse.ReadAll resp with
                      | Fail e =>
                          ret (emptyResponse ("Error reading response body: " +:+ e))
                      | Ok body => ret (successResponse req resp body)
                      end
                  end
              end
          end
      end
  end.

End Helpers.

(** ** Session methods ([wrapper.go]) *)

Section Wrapper.
Context `{Lib : GoLib} {T : Type} `{Tr : !Transport T}.

(** [time.Millisecond * 100 * time.Duration(attempt+1)], in
    nanoseconds. *)
Definition backoff (attempt : Z) : Z := wrap64 (1000000 * 100 * (attempt + 1)).

(** The exit below the loop of [executeWithRetry]. *)
Definition exhausted (maxRetries : Z) (lastResponse : Response.t) : Response.t :=
  Response.set_Error lastResponse
    ("max retries (" +:+ Itoa maxRetries +:+ ") exceeded: "
       +:+ Response.Error lastResponse).

(** The loop of [executeWithRetry]; [turns] is the number of turns
    left, [maxRetries - attempt]. *)
Fixpoint retryLoop (turns : nat) (attempt maxRetries : Z)
    (request : RequestOptions.t) (req : Request.t) (lastResponse : Response.t)
    : M T Response.t :=
  match turns with
  | O => ret (exhausted maxRetries lastResponse)
  | S turns' =>
      do resp <- handleResponse request req None;
      if String.eqb (Response.Error resp) "" then ret resp
      else
        do _ <- (if attempt <? maxRetries - 1
                 then emit (EvSleep (backoff attempt))
                 else ret tt);
        retryLoop turns' (attempt + 1) maxRetries request req resp
  end.

(** The retry budget in effect. *)
Definition effectiveRetries (configured : Z) : Z :=
  if configured <=? 0 then 1 else configured.

(** [executeWithRetry]. The caller has checked the session; a nil
    receiver would panic on [s.MaxRetries] and is given the zero
    budget here. *)
Definition executeWithRetry (request : RequestOptions.t) (req : Request.t)
    : M T Response.t :=
  do s <- get_self;
  let maxRetries := effectiveRetries (from_option MaxRetries 0 s) in
  retryLoop (Z.to_nat maxRetries) 0 maxRetries request req Response.zero.

(** The content-type update of [executeRequest]. The map is the
    caller's own: Go maps are references, so the assignment is seen by
    whoever holds [request.Headers]. *)
Definition updateContentType (headers : option (gmap string string))
    (contentType : string) : option (gmap string string) :=
  match headers with
  | Some h =>
      if negb (String.eqb contentType "") then
        if Contains contentType "multipart/form-data"
        then Some (<["content-type" := contentType]> h)
        else headers
      else headers
  | None => None
  end.

Definition executeRequest (method : string) (request : RequestOptions.t)
    : M T Response.t :=
  do s <- get_self;
  if negb (IsValid s) then ret (emptyResponse "session or client is nil")
  else if blank (RequestOptions.Url request) then
    ret (Response.set_Error Response.zero "URL cannot be empty")
  else
    match buildURL (RequestOptions.Url request) (RequestOptions.Params request) with
    | Fail err =>
        ret (Response.set_Error Response.zero ("error parsing URL: " +:+ Sprintf_w err))
    | Ok parsedUrl =>
        do formatted <- formatBody (RequestOptions.Headers request)
                          (RequestOptions.Body request);
        match formatted with
        | Fail bodyErr =>
            ret (Response.set_Error Response.zero
                   ("error formatting body: " +:+ Sprintf_w bodyErr))
        | Ok (bodyReader, contentType) =>
            let request :=
              RequestOptions.set_Headers request
                (updateContentType (RequestOptions.Headers request) contentType) in
            match http_NewRequest method parsedUrl bodyReader with
            | Fail err =>
                ret (Response.set_Error Response.zero
                       ("error creating request: " +:+ Sprintf_w err))
            | Ok req => executeWithRetry request req
            end
        end
    end.

Definition Get := executeRequest "GET".
Definition Post := executeRequest "POST".
Definition Put := executeRequest "PUT".
Definition Delete := executeRequest "DELETE".
Definition Patch := executeRequest "PATCH".
Definition Head := executeRequest "HEAD".
Definition Options := executeRequest "OPTIONS".

(** [s.Client.m(...)] for a method that only changes the client. *)
Definition with_client (s : Session T) (client : T) (e : Event) (client' : T)
    : M T unit :=
  do _ <- emit e; set_self (Some (set_Client s (Some client'))).

(** The methods below return the error, [None] for nil. *)
Definition SetCookies (name value : string) (targetURL : option URL)
    : M T (option string) :=
  do s <- get_self;
  match s with
  | Some s =>
      match Client s with
      | Some client =>
          if blank name then ret (Some "cookie name cannot be empty")
          else
            match targetURL with
            | None => ret (Some "target URL cannot be nil")
            | Some u =>
                let cookie :=
                  {| Cookie.Name := name; Cookie.Value := value; Cookie.Path := "";
                     Cookie.Domain := ""; Cookie.MaxAge := 60 * 60 * 24 * 365;
                     Cookie.HttpOnly := true;
                     Cookie.Secure := String.eqb (Scheme u) "https";
                     Cookie.SameSite := SameSiteNoneMode |} in
                do _ <- with_client s client (EvSetCookies u [cookie])
                          (client_SetCookies client u [cookie]);
                ret None
            end
      | None => ret (Some "session or client is nil")
      end
  | None => ret (Some "session or client is nil")
  end.

Definition SetCookiesWithOptions (cookie : option Cookie.t) (targetURL : option URL)
    : M T (option string) :=
  do s <- get_self;
  match s with
  | Some s =>
      match Client s with
      | Some client =>
          match cookie with
          | None => ret (Some "cookie cannot be nil")
          | Some cookie =>
              match targetURL with
              | None => ret (Some "target URL cannot be nil")
              | Some u =>
                  if blank (Cookie.Name cookie) then ret (Some "cookie name cannot be empty")
                  else
                    do _ <- with_client s client (EvSetCookies u [cookie])
                              (client_SetCookies client u [cookie]);
                    ret None
              end
          end
      | None => ret (Some "session or client is nil")
      end
  | None => ret (Some "session or client is nil")
  end.

Definition SetProxy (proxy : string) : M T (option string) :=
  do s <- get_self;
  match s with
  | Some s =>
      match Client s with
      | Some client =>
          if blank proxy then ret (Some "proxy URL cannot be empty")
          else
            match url_Parse proxy with
            | Fail err => ret (Some ("invalid proxy URL format: " +:+ err))
            | Ok _ =>
                do _ <- with_client s client (EvSetProxy proxy)
                          (client_SetProxy client proxy);
                ret None
            end
      | None => ret (Some "session or client is nil")
      end
  | None => ret (Some "session or client is nil")
  end.

Definition ClearCookies : M T (option string) :=
  do s <- get_self;
  match s with
  | Some s =>
      match Client s with
      | Some client =>
          do _ <- emit EvNewCookieJar;
          match NewCookieJar with
          | None => ret (Some "failed to create new cookie jar")
          | Some jar =>
              do _ <- with_client s client EvSetCookieJar
                        (client_SetCookieJar client jar);
              ret None
          end
      | None => ret (Some "session or client is nil")
      end
  | None => ret (Some "session or client is nil")
  end.

(** The filter of [GetCookies]: non-nil cookies with a non-blank name. *)
Definition validCookie (cookie : option Cookie.t) : option Cookie.t :=
  match cookie with
  | Some c => if negb (blank (Cookie.Name c)) then Some c else None
  | None => None
  end.

Definition GetCookies (targetURL : option URL) : M T (Err (list Cookie.t)) :=
  do s <- get_self;
  match s with
  | Some s =>
      match Client s with
      | Some client =>
          let '(cookies, client') := client_GetCookies client targetURL in
          do _ <- with_client s client (EvGetCookies targetURL) client';
          ret (Ok (omap validCookie cookies))
      | None => ret (Fail "session or client is nil")
      end
  | None => ret (Fail "session or client is nil")
  end.

(** The search loop of [GetCookie]. *)
Fixpoint findCookie (name : string) (cookies : list (option Cookie.t))
    : option Cookie.t :=
  match cookies with
  | [] => None
  | Some c :: rest => if String.eqb (Cookie.Name c) name then Some c else findCookie name rest
  | None :: rest => findCookie name rest
  end.

Definition GetCookie (name : string) (targetURL : option URL) : M T (option Cookie.t) :=
  do s <- get_self;
  match s with
  | Some s =>
      match Client s with
      | Some client =>
          if blank name then ret None
          else
            let '(cookies, client') := client_GetCookies client targetURL in
            do _ <- with_client s client (EvGetCookies targetURL) client';
            ret (findCookie name cookies)
      | None => ret None
      end
  | None => ret None
  end.

Definition Close : M T (option string) :=
  do s <- get_self;
  if negb (IsValid s) then ret None
  else
    do err <- ClearCookies;
    match err with
    | Some err => ret (Some ("error clearing cookies during close: " +:+ err))
    | None =>
        do s <- get_self;
        do _ <- set_self (option_map (λ s, set_Client s None) s);
        ret None
    end.

End Wrapper.

(** ** Utility functions and the session factory *)

(** [getIntOrDefault]; a nil pointer is [None]. *)
Definition getIntOrDefault (value : option Z) (defaultValue : Z) : Z :=
  match value with
  | Some v => v
  | None => defaultValue
  end.

(** [getStringOrDefault]: an empty string counts as absent. *)
Definition getStringOrDefault (value : option string) (defaultValue : string) : string :=
  match value with
  | Some v => if negb (String.eqb v "") then v else defaultValue
  | None => defaultValue
  end.

(** The double quote, for the constants that hold one. *)
Definition dq : string := String (ascii_of_N 34) "".

(** The default header values of [constants.go]. *)
Definition user_agent : string :=
  "Mozilla/5.0 (Macintosh; Intel Mac OS X 10_15_7) AppleWebKit/537.36 (KHTML, like Gecko) Chrome/139.0.0.0 Safari/537.36".

Definition sech_ua : string :=
  dq +:+ "Not;A=Brand" +:+ dq +:+ ";v=" +:+ dq +:+ "99" +:+ dq +:+ ", "
     +:+ dq +:+ "Google Chrome" +:+ dq +:+ ";v=" +:+ dq +:+ "139" +:+ dq +:+ ", "
     +:+ dq +:+ "Chromium" +:+ dq +:+ ";v=" +:+ dq +:+ "139" +:+ dq.

Definition sech_ua_platform : string := dq +:+ "macOS" +:+ dq.

(** [SessionConfig], over the type of client profiles. *)
Module SessionConfig.
Record t (P : Type) : Type := mk {
  UserAgent : option string;
  SecChUa : option string;
  SecChUaPlatform : option string;
  Timeout : option Z;
  Profile : option P;
  MaxRetries : option Z;
}.
Arguments mk {P}.
Arguments UserAgent {P}.
Arguments SecChUa {P}.
Arguments SecChUaPlatform {P}.
Arguments Timeout {P}.
Arguments Profile {P}.
Arguments MaxRetries {P}.
(** [&SessionConfig{}]. *)
Definition zero {P} : t P :=
  {| UserAgent := None; SecChUa := None; SecChUaPlatform := None;
     Timeout := None; Profile := None; MaxRetries := None |}.
End SessionConfig.

(** The constructor of the TLS client: [tls_client.NewHttpClient] with
    the timeout, the profile and the cookie jar it is given; a client it
    returns without error is not nil. *)
Class ClientFactory (T : Type) `{Tr : Transport T} : Type := {
  ClientProfile : Type;
  Chrome_133 : ClientProfile;
  NewHttpClient : Z → ClientProfile → Jar → Err T;
}.

Section Utilities.
Context `{Lib : GoLib} {T : Type} `{Tr : !Transport T} `{Factory : !ClientFactory T}.

(** [ValidateURL]; the result is the error, [None] for nil. *)
Definition ValidateURL (rawURL : string) : option string :=
  if blank rawURL then Some "URL cannot be empty"
  else
    match url_Parse rawURL with
    | Fail err => Some ("invalid URL format: " +:+ err)
    | Ok parsedURL =>
        if String.eqb (Scheme parsedURL) "" then Some "URL must include scheme (http/https)"
        else if String.eqb (Host parsedURL) "" then Some "URL must include host"
        else None
    end.

(** [SanitizeHeaders]. *)
Definition SanitizeHeaders (headers : option (gmap string string)) : gmap string string :=
  match headers with
  | None => ∅
  | Some h =>
      foldl (λ sanitized kv,
               if negb (blank kv.1) then <[kv.1 := kv.2]> sanitized else sanitized)
            ∅ (range h)
  end.

(** [NewSession]; a nil config is [None]. *)
Definition NewSession (config : option (SessionConfig.t ClientProfile)) : Err (Session T) :=
  let config := default SessionConfig.zero config in
  match NewCookieJar with
  | None => Fail "failed to create cookie jar"
  | Some jar =>
      let profile := default Chrome_133 (SessionConfig.Profile config) in
      match NewHttpClient (getIntOrDefault (SessionConfig.Timeout config) 60) profile jar with
      | Fail err => Fail ("error creating TLS session: " +:+ err)
      | Ok client =>
          Ok {| Client := Some client;
                UserAgent := getStringOrDefault (SessionConfig.UserAgent config) user_agent;
                SecChUa := getStringOrDefault (SessionConfig.SecChUa config) sech_ua;
                SecChUaPlatform :=
                  getStringOrDefault (SessionConfig.SecChUaPlatform config) sech_ua_platform;
                MaxRetries := getIntOrDefault (SessionConfig.MaxRetries config) 3 |}
      end
  end.

(** [NewSessionLegacy]. *)
Definition NewSessionLegacy (ua s_ua s_ua_platform : option string) (timeout : option Z)
    : Err (Session T) :=
  let config :=
    {| SessionConfig.UserAgent := ua; SessionConfig.SecChUa := s_ua;
       SessionConfig.SecChUaPlatform := s_ua_platform; SessionConfig.Timeout := timeout;
       SessionConfig.Profile := None; SessionConfig.MaxRetries := None |} in
  NewSession (Some config).

(** A value of the map [GetSessionInfo] returns. *)
Inductive InfoValue : Type :=
| InfoBool (b : bool)
| InfoString (s : string)
| InfoInt (z : Z).

(** [GetSessionInfo]. *)
Definition GetSessionInfo : M T (gmap string InfoValue) :=
  do s <- get_self;
  match s with
  | Some s =>
      match Client s with
      | Some _ =>
          ret (<["valid" := InfoBool true]>
                 (<["user_agent" := InfoString (UserAgent s)]>
                    (<["sec_ch_ua" := InfoString (SecChUa s)]>
                       (<["sec_ch_ua_platform" := InfoString (SecChUaPlatform s)]>
                          (<["max_retries" := InfoInt (MaxRetries s)]> ∅)))))
      | None => ret {[ "valid" := InfoBool false ]}
      end
  | None => ret {[ "valid" := InfoBool false ]}
  end.

End Utilities.

(** * Vocabulary of the properties *)

(** ** Query strings *)

Definition no_byte (c : ascii) (s : string) : bool :=
  all_bytes (λ x, negb (Ascii.eqb x c)) s.

(** The bytes [QueryEscape] can emit. *)
Definition escaped_byte (c : ascii) : bool :=
  unreserved c || Ascii.eqb c "%" || Ascii.eqb c "+".

(** One [key=value] item of the encoded query. *)
Definition enc_piece (kx : string * string) : string :=
  QueryEscape kx.1 +:+ "=" +:+ QueryEscape kx.2.

(** The write step of [Values.Encode]. *)
Definition enc_step (buf p : string) : string :=
  (if String.eqb buf "" then buf else buf +:+ "&") +:+ p.

(** The items after the first, each behind its ampersand. *)
Fixpoint amp_tail (ps : list string) : string :=
  match ps with
  | [] => ""
  | p :: ps => "&" +:+ p +:+ amp_tail ps
  end.

(** The parameters a [Values] holds, one pair per value. *)
Definition pairs_of (v : Values) : list (string * string) :=
  map_to_list v ≫= λ kvs, (kvs.1,.) <$> kvs.2.

(** The entries of a parameter map that [buildURL] adds. *)
Definition kept_params (entries : list (string * string)) : list (string * string) :=
  filter (λ kv, blank kv.1 = false) entries.

(** ** Traces and responses *)

(** The world with more calls on its trace. *)
Definition add_trace {T} (w : World T) (events : list Event) : World T :=
  {| self := self w; trace := trace w ++ events; entropy := entropy w |}.

Definition is_Do (e : Event) : bool :=
  match e with EvDo _ => true | _ => false end.

Definition is_Sleep (e : Event) : bool :=
  match e with EvSleep _ => true | _ => false end.

(** The number of requests handed to the transport, and of back-off
    sleeps. *)
Definition count_Do (events : list Event) : nat := length (filter is_Do events).
Definition count_Sleep (events : list Event) : nat := length (filter is_Sleep events).

(** The shape of every failure response: no status, no body. *)
Definition error_shaped (r : Response.t) : Prop :=
  Response.StatusCode r = 0 ∧ Response.Body r = None.

(** The sleeps between [n + 1] failed attempts, the first of them
    numbered [attempt]. *)
Definition sleeps (attempt : Z) (n : nat) : list Event :=
  (λ i, EvSleep (backoff (attempt + Z.of_nat i))) <$> seq 0 n.

(** What failed attempts put on the trace, the first of them numbered
    [attempt] and the [i]-th of them made with the [i]-th request of
    [reqs]: each request, and the sleep after it unless it was the last
    attempt allowed. The requests need not be equal. *)
Fixpoint attempts (maxRetries attempt : Z) (reqs : list Request.t) : list Event :=
  match reqs with
  | [] => []
  | r :: rest =>
      EvDo r ::
        (if attempt <? maxRetries - 1 then [EvSleep (backoff attempt)] else [])
        ++ attempts maxRetries (attempt + 1) rest
  end.

(** Whether an attempt that reached the transport succeeded: the request
    was answered and the body of the answer could be read. *)
Definition answered (result : Err HttpResponse.t) : bool :=
  match result with
  | Ok resp =>
      match HttpResponse.ReadAll resp with
      | Ok _ => true
      | Fail _ => false
      end
  | Fail _ => false
  end.

(** The error of an attempt that reached the transport; empty when the
    attempt succeeded. *)
Definition attemptError (result : Err HttpResponse.t) : string :=
  match result with
  | Fail e => "Request error: " +:+ e
  | Ok resp =>
      match HttpResponse.ReadAll resp with
      | Fail e => "Error reading response body: " +:+ e
      | Ok _ => ""
      end
  end.

(** No key of the header map is blank: what [formatHeaders] asks of it,
    in whichever order it visits the map. *)
Definition no_blank_key (headers : option (gmap string string)) : bool :=
  match headers with
  | None => true
  | Some h => forallb (λ kv, negb (blank kv.1)) (map_to_list h)
  end.

Section Vocabulary.
Context `{Lib : GoLib} {T : Type} `{Tr : !Transport T}.

(** The pairs [Values.Encode] writes, in the order it writes them. *)
Definition sorted_pairs (v : Values) : list (string * string) :=
  merge_sort String.le ((range v).*1) ≫= λ k, (k,.) <$> default [] (v !! k).

(** What one turn of the loop stores. *)
Definition store (s : Session T) (formatted : Header) (kv : string * string) : Header :=
  <[kv.1 := [applyDefault s (ToLower kv.1) kv.2]]> formatted.

(** The response [handleResponse] derives from the answer of the
    transport. *)
Definition attemptResponse (req : Request.t) (result : Err HttpResponse.t) : Response.t :=
  match result with
  | Fail e => emptyResponse ("Request error: " +:+ e)
  | Ok resp =>
      match HttpResponse.ReadAll resp with
      | Fail e => emptyResponse ("Error reading response body: " +:+ e)
      | Ok body => successResponse req resp body
      end
  end.

(** The client after [n] more requests [req]. *)
Fixpoint client_after (c : T) (req : Request.t) (n : nat) : T :=
  match n with
  | O => c
  | S n => client_after (client_Do c req).2 req n
  end.

(** The [i]-th answer of a client that is sent [req] over and over. *)
Definition answer (c : T) (req : Request.t) (i : nat) : Err HttpResponse.t :=
  (client_Do (client_after c req i) req).1.

(** The request as the transport sees it. *)
Definition sent (req : Request.t) (hs : Header) : Request.t := Request.set_Header req hs.

(** What [k] failed attempts, the first of them numbered [attempt], put
    on the trace: each request, and the sleep after it unless it was the
    last attempt allowed. *)
Definition failed_attempts (req : Request.t) (hs : Header) (maxRetries attempt : Z)
    (k : nat) : list Event :=
  seq 0 k ≫= λ i,
    EvDo (sent req hs) ::
      (if attempt + Z.of_nat i <? maxRetries - 1
       then [EvSleep (backoff (attempt + Z.of_nat i))] else []).

(** The last response the loop holds after [k] failed attempts. *)
Definition last_after (req : Request.t) (hs : Header) (last : Response.t) (c : T) (k : nat)
    : Response.t :=
  match k with
  | O => last
  | S j => attemptResponse (sent req hs) (answer c (sent req hs) j)
  end.

(** The client after the requests [reqs], made in this order. *)
Definition client_through (c : T) (reqs : list Request.t) : T :=
  foldl (λ c r, (client_Do c r).2) c reqs.

(** A transport whose next [n] attempts fail, whatever the requests it
    is sent. *)
Fixpoint fails_next (n : nat) (c : T) : Prop :=
  match n with
  | O => True
  | S n => ∀ r, answered (client_Do c r).1 = false ∧ fails_next n (client_Do c r).2
  end.

(** A transport whose next [n] attempts fail and whose attempt after
    those succeeds, whatever the requests it is sent. *)
Fixpoint fails_then_answers (n : nat) (c : T) : Prop :=
  match n with
  | O => ∀ r, answered (client_Do c r).1 = true
  | S n => ∀ r, answered (client_Do c r).1 = false
                ∧ fails_then_answers n (client_Do c r).2
  end.

(** The branch [formatBody] takes: none for a nil body, otherwise the
    encoder selected from the declared or inferred content type. *)
Definition encoderFor (headers : option (gmap string string)) (body : Any)
    : option Encoder :=
  match body with
  | AnyNil => None
  | _ => Some (selectEncoder (resolveContentType headers body))
  end.

End Vocabulary.

(** ** A reference platform

    An instance of the platform to run the code on: maps are visited in
    the order of [map_to_list]; a URL is cut at the first [#] and the
    first [?] and is rejected when it holds a control character, as
    [url.Parse] does; JSON and multipart output are simple renderings
    that no statement below depends on. *)

Module Ref.

Definition ctl (c : ascii) : bool := ((N_of_ascii c <? 32) || (N_of_ascii c =? 127))%N.

Definition no_ctl (s : string) : bool := all_bytes (λ c, negb (ctl c)) s.

Definition Parse (s : string) : Err URL :=
  if no_ctl s then
    let rest := (Cut "#" s).1 in
    let pre := (Cut "?" rest).1 in
    Ok {| Scheme := if Contains pre ":" then (Cut ":" pre).1 else "";
          Opaque := ""; Host := ""; Path := pre; ForceQuery := false;
          RawQuery := (Cut "?" rest).2; Fragment := (Cut "#" s).2 |}
  else Fail "net/url: invalid control character in URL".

Definition render (u : URL) : string :=
  Path u
    +:+ (if String.eqb (RawQuery u) "" then "" else String "?" (RawQuery u))
    +:+ (if String.eqb (Fragment u) "" then "" else String "#" (Fragment u)).

Definition quote : string := String (ascii_of_N 34) "".
Definition crlf : string := String (ascii_of_N 13) (String (ascii_of_N 10) "").

Definition Marshal (v : Any) : Err string :=
  match v with
  | AnyNil => Ok "null"
  | AnyString s => Ok (quote +:+ s +:+ quote)
  | AnyMap m =>
      Ok ("{" +:+ foldr (λ kv acc, quote +:+ kv.1 +:+ quote +:+ ":" +:+ quote
                                     +:+ kv.2 +:+ quote +:+ "," +:+ acc)
                        "}" (map_to_list m))
  | AnyOther _ => Fail "json: unsupported type"
  end.

Definition WriteField (boundary buf k v : string) : Err string :=
  Ok (buf +:+ "--" +:+ boundary +:+ crlf
        +:+ "Content-Disposition: form-data; name=" +:+ quote +:+ k +:+ quote
        +:+ crlf +:+ crlf +:+ v +:+ crlf).

Definition CloseWriter (boundary buf : string) : Err string :=
  Ok (buf +:+ "--" +:+ boundary +:+ "--" +:+ crlf).

Definition NewRequest (method url : string) (body : option string) : Err Request.t :=
  match Parse url with
  | Fail e => Fail e
  | Ok u => Ok {| Request.Method := method; Request.URL := u;
                  Request.Body := body; Request.Header := ∅ |}
  end.

(** A transport that counts its calls and answers the [n]-th request
    by [script n]; its cookie store is empty. *)
Definition transport (script : nat → Err HttpResponse.t) : Transport nat :=
  {| Jar := unit;
     NewCookieJar := Some tt;
     client_Do := λ n _, (script n, S n);
     client_GetCookies := λ n _, ([], n);
     client_SetCookies := λ n _ _, n;
     client_SetCookieJar := λ n _, n;
     client_SetProxy := λ n _, n |}.

Definition okResponse : HttpResponse.t :=
  {| HttpResponse.StatusCode := 200; HttpResponse.Header := Some ∅;
     HttpResponse.Cookies := []; HttpResponse.Location := None;
     HttpResponse.ReadAll := Ok "ok" |}.

(** An answer whose body cannot be read. *)
Definition truncated : HttpResponse.t :=
  {| HttpResponse.StatusCode := 200; HttpResponse.Header := None;
     HttpResponse.Cookies := []; HttpResponse.Location := None;
     HttpResponse.ReadAll := Fail "unexpected EOF" |}.

(** The first request fails, the answer to the second cannot be read,
    the next ones succeed. *)
Definition shaky : nat → Err HttpResponse.t :=
  λ i, match i with
       | 0%nat => Fail "timeout"
       | 1%nat => Ok truncated
       | _ => Ok okResponse
       end.

(** Every request fails with the message ["boom"]. *)
Definition boom : nat → Err HttpResponse.t := λ _, Fail "boom".

(** The first [n] requests fail, the next ones succeed. *)
Definition flaky (n : nat) : nat → Err HttpResponse.t :=
  λ i, if (i <? n)%nat then Fail "timeout" else Ok okResponse.

Definition session (maxRetries : Z) : Session nat :=
  {| Client := Some 0%nat; UserAgent := "UA"; SecChUa := "CHUA";
     SecChUaPlatform := "PLATFORM"; MaxRetries := maxRetries |}.

Definition world (s : option (Session nat)) : World nat :=
  {| self := s; trace := []; entropy := λ _, ascii_of_N 0 |}.

(** A world whose random source counts: its [i]-th byte is [i]. *)
Definition counting (s : option (Session nat)) : World nat :=
  {| self := s; trace := []; entropy := ascii_of_nat |}.

Definition request (url : string) (headers : option (gmap string string)) (body : Any)
    : RequestOptions.t :=
  {| RequestOptions.Url := url; RequestOptions.Headers := headers;
     RequestOptions.Body := body; RequestOptions.Params := None |}.

End Ref.

(** ** Inputs for runs on the reference platform *)

Module Run.

(** A session with a budget of three attempts, not yet used. *)
Definition w3 : World nat := Ref.world (Some (Ref.session 3)).

Definition plainGet : RequestOptions.t := Ref.request "https://example.com/" None AnyNil.

(** A request whose header map holds an empty key. *)
Definition blankKeyGet : RequestOptions.t :=
  Ref.request "https://example.com/" (Some {[ "" := "v"; "Accept" := "*/*" ]}) AnyNil.

(** The multipart example of the README: the content type is declared
    under the key [Content-Type]. *)
Definition multipartPost : RequestOptions.t :=
  Ref.request "https://httpbin.org/post"
    (Some {[ "Content-Type" := "multipart/form-data" ]})
    (AnyMap {[ "text_field" := "some text value" ]}).

Definition httpRequest : Request.t :=
  {| Request.Method := "GET";
     Request.URL := {| Scheme := "https"; Opaque := ""; Host := "";
                       Path := "https://example.com/"; ForceQuery := false;
                       RawQuery := ""; Fragment := "" |};
     Request.Body := None; Request.Header := ∅ |}.

(** The formatted headers of a map with two reserved names and one other
    header, for [Ref.session 3] and the reference library. *)
Definition formattedExample : Header :=
  {[ "User-Agent" := ["UA"]; "SEC-CH-UA" := ["CHUA"]; "Accept" := ["*/*"];
     "Header-Order:" := ["SEC-CH-UA"; "User-Agent"; "Accept"] ]}.

Definition zeros : string := "000000000000000000000000000000000000000000000000000000000000".

(** A multipart request body and its declared content type, a world
    whose random source counts, the boundary drawn from its first thirty
    bytes and the body written with it on the reference platform. *)
Definition multipartHeaders : option (gmap string string) :=
  Some {[ "Content-Type" := "multipart/form-data" ]}.

Definition multipartBody : Any := AnyMap {[ "text_field" := "some text value" ]}.

Definition counting3 : World nat := Ref.counting (Some (Ref.session 3)).

Definition counted : string := "000102030405060708090a0b0c0d0e0f101112131415161718191a1b1c1d".

Definition multipartReader : string :=
  "--" +:+ counted +:+ Ref.crlf
    +:+ "Content-Disposition: form-data; name=" +:+ Ref.quote +:+ "text_field" +:+ Ref.quote
    +:+ Ref.crlf +:+ Ref.crlf +:+ "some text value" +:+ Ref.crlf
    +:+ "--" +:+ counted +:+ "--" +:+ Ref.crlf.

End Run.

(** * Properties *)

(** ** The library models on small inputs *)

Example TrimSpace_ascii : TrimSpace "  a b " = "a b".
Proof. reflexivity. Qed.

(** A key made of a tab and a no-break space (U+00A0) is blank. *)
Example blank_unicode :
  blank (String (ascii_of_N 9) (String (ascii_of_N 194) (String (ascii_of_N 160) ""))) = true
  ∧ blank "" = true ∧ blank " x" = false.
Proof. repeat split; reflexivity. Qed.

Example Contains_content_type :
  Contains "multipart/form-data; boundary=ab" "multipart/form-data" = true
  ∧ Contains "application/json" "text/plain" = false.
Proof. split; reflexivity. Qed.

Example QueryEscape_reserved : QueryEscape "a b&c=d/~" = "a+b%26c%3Dd%2F~".
Proof. reflexivity. Qed.

Example QueryUnescape_bad_escape :
  QueryUnescape "a%2" = None ∧ QueryUnescape "a%2Fb+c" = Some "a/b c".
Proof. split; reflexivity. Qed.

(** Empty pieces, a piece with a semicolon and a badly escaped piece are
    dropped; a repeated key keeps both values. *)
Example parse_pairs_skips :
  parse_pairs "a=1&&b=2;c=3&a=x+y&d=%zz&e" = [("a", "1"); ("a", "x y"); ("e", "")].
Proof. reflexivity. Qed.

Example Itoa_budget : Itoa 3 = "3" ∧ Itoa 12 = "12".
Proof. split; reflexivity. Qed.

(** The back-off is linear: 100ms, 200ms, 300ms. *)
Example backoff_linear :
  backoff 0 = 100000000 ∧ backoff 1 = 200000000 ∧ backoff 2 = 300000000.
Proof. repeat split; reflexivity. Qed.

(** ** Strings *)

Lemma append_cons (x : ascii) (a b : string) : String x a +:+ b = String x (a +:+ b).
Proof. reflexivity. Qed.

Lemma append_empty_l (a : string) : "" +:+ a = a.
Proof. reflexivity. Qed.

Lemma append_assoc (a b c : string) : (a +:+ b) +:+ c = a +:+ (b +:+ c).
Proof. induction a as [|x a IH]; [done |]. rewrite !append_cons. by rewrite IH. Qed.

Lemma append_empty_r (a : string) : a +:+ "" = a.
Proof. induction a as [|x a IH]; [done |]. rewrite append_cons. by rewrite IH. Qed.

Lemma all_bytes_app P (a b : string) :
  all_bytes P (a +:+ b) = all_bytes P a && all_bytes P b.
Proof.
  induction a as [|x a IH]; [done |].
  rewrite append_cons. simpl. rewrite IH. by destruct (P x).
Qed.

Lemma all_bytes_impl (P Q : ascii → bool) (s : string) :
  (∀ c, P c = true → Q c = true) → all_bytes P s = true → all_bytes Q s = true.
Proof.
  intros HPQ. induction s as [|x s IH]; simpl; [done |].
  rewrite !andb_true_iff. intros [? ?]. auto.
Qed.

(** Case analysis on the 256 bytes. *)
Ltac each_byte c :=
  destruct c as [[] [] [] [] [] [] [] []].

(** A string without the byte [c] does not contain the one-byte string
    [c]. *)
Lemma Contains_byte_false (c : ascii) (s : string) :
  all_bytes (λ x, negb (Ascii.eqb x c)) s = true → Contains s (String c "") = false.
Proof.
  induction s as [|x s IH]; simpl; [done |].
  rewrite andb_true_iff, negb_true_iff. intros [Hx Hs].
  destruct (ascii_dec c x) as [->|Hne].
  - by rewrite Ascii.eqb_refl in Hx.
  - by apply IH.
Qed.

(** ** Query escaping round trip *)

Lemma QueryEscape_cons (c : ascii) (r : string) :
  QueryEscape (String c r) = QueryEscape (String c "") +:+ QueryEscape r.
Proof. simpl. destruct (unreserved c), (Ascii.eqb c " "); reflexivity. Qed.

Lemma QueryEscape_byte_escaped (c : ascii) :
  all_bytes escaped_byte (QueryEscape (String c "")) = true.
Proof. each_byte c; reflexivity. Qed.

Lemma QueryEscape_escaped (s : string) : all_bytes escaped_byte (QueryEscape s) = true.
Proof.
  induction s as [|c s IH]; [done |].
  rewrite QueryEscape_cons, all_bytes_app, IH, QueryEscape_byte_escaped. done.
Qed.

Lemma QueryUnescape_byte (c : ascii) (r : string) :
  QueryUnescape (QueryEscape (String c "") +:+ r) = String c <$> QueryUnescape r.
Proof. each_byte c; reflexivity. Qed.

Lemma QueryUnescape_QueryEscape (s : string) : QueryUnescape (QueryEscape s) = Some s.
Proof.
  induction s as [|c s IH]; [done |].
  rewrite QueryEscape_cons, QueryUnescape_byte, IH. done.
Qed.

(** ** Cutting and splitting *)

Lemma no_byte_app c (a b : string) : no_byte c (a +:+ b) = no_byte c a && no_byte c b.
Proof. apply all_bytes_app. Qed.

Lemma no_byte_single c x : no_byte c (String x "") = negb (Ascii.eqb x c).
Proof. unfold no_byte. cbn [all_bytes]. apply andb_true_r. Qed.

Lemma Cut_app (c : ascii) (a b : string) :
  no_byte c a = true → Cut c (a +:+ String c b) = (a, b).
Proof.
  induction a as [|x a IH]; intros Ha.
  - rewrite append_empty_l. simpl. by rewrite Ascii.eqb_refl.
  - rewrite append_cons. simpl in *.
    apply andb_true_iff in Ha as [Hx Ha]. apply negb_true_iff in Hx.
    rewrite Hx, (IH Ha). done.
Qed.

Lemma Cut_none (c : ascii) (a : string) : no_byte c a = true → Cut c a = (a, "").
Proof.
  induction a as [|x a IH]; intros Ha; [done |].
  simpl in *. apply andb_true_iff in Ha as [Hx Ha]. apply negb_true_iff in Hx.
  rewrite Hx, (IH Ha). done.
Qed.

Lemma Cut_fst_no_byte (c : ascii) (s : string) : no_byte c (Cut c s).1 = true.
Proof.
  induction s as [|x s IH]; [done |].
  simpl. destruct (Ascii.eqb x c) eqn:Hx; [done |].
  destruct (Cut c s) as [a b]. unfold no_byte in *. simpl in *. by rewrite Hx, IH.
Qed.

Lemma Cut_all_bytes P (c : ascii) (s : string) :
  all_bytes P s = true →
  all_bytes P (Cut c s).1 = true ∧ all_bytes P (Cut c s).2 = true.
Proof.
  induction s as [|x s IH]; [done |].
  simpl. intros [Hx Hs]%andb_true_iff.
  destruct (Ascii.eqb x c); [done |].
  destruct (Cut c s) as [a b]. simpl in *. rewrite Hx. by apply IH.
Qed.

Lemma pieces_no_amp (a : string) : no_byte "&" a = true → pieces a = [a].
Proof.
  induction a as [|x a IH]; intros Ha; [done |].
  simpl in *. apply andb_true_iff in Ha as [Hx Ha]. apply negb_true_iff in Hx.
  rewrite Hx, (IH Ha). done.
Qed.

Lemma pieces_app (a rest : string) :
  no_byte "&" a = true → pieces (a +:+ String "&" rest) = a :: pieces rest.
Proof.
  induction a as [|x a IH]; intros Ha.
  - by rewrite append_empty_l.
  - rewrite append_cons. simpl in *.
    apply andb_true_iff in Ha as [Hx Ha]. apply negb_true_iff in Hx.
    rewrite Hx, (IH Ha). done.
Qed.

(** ** [Values.Encode] and [ParseQuery] *)

Lemma escaped_not_amp c : escaped_byte c = true → negb (Ascii.eqb c "&") = true.
Proof. each_byte c; done. Qed.

Lemma escaped_not_eq c : escaped_byte c = true → negb (Ascii.eqb c "=") = true.
Proof. each_byte c; done. Qed.

Lemma escaped_not_semi c : escaped_byte c = true → negb (Ascii.eqb c ";") = true.
Proof. each_byte c; done. Qed.

Lemma escaped_query_byte c : escaped_byte c = true → query_byte c = true.
Proof. each_byte c; done. Qed.

Lemma QueryEscape_no_byte c s :
  (∀ x, escaped_byte x = true → negb (Ascii.eqb x c) = true) →
  no_byte c (QueryEscape s) = true.
Proof. intros H. eapply all_bytes_impl; [apply H | apply QueryEscape_escaped]. Qed.

Lemma enc_piece_no_byte c kx :
  (∀ x, escaped_byte x = true → negb (Ascii.eqb x c) = true) →
  Ascii.eqb "=" c = false →
  no_byte c (enc_piece kx) = true.
Proof.
  intros H Hc. unfold enc_piece.
  rewrite !no_byte_app, !QueryEscape_no_byte by done.
  rewrite no_byte_single, Hc. done.
Qed.

Lemma enc_piece_nonempty kx : String.eqb (enc_piece kx) "" = false.
Proof. unfold enc_piece. by destruct (QueryEscape kx.1). Qed.

Lemma parse_piece_enc (kx : string * string) : parse_piece (enc_piece kx) = Some kx.
Proof.
  unfold parse_piece.
  rewrite Contains_byte_false
    by (apply enc_piece_no_byte; [apply escaped_not_semi | done]).
  rewrite enc_piece_nonempty. unfold enc_piece.
  change ("=" +:+ QueryEscape kx.2) with (String "=" (QueryEscape kx.2)).
  rewrite Cut_app by (apply QueryEscape_no_byte, escaped_not_eq).
  rewrite !QueryUnescape_QueryEscape. by destruct kx.
Qed.

Lemma enc_step_nonempty (buf p : string) :
  String.eqb buf "" = false → enc_step buf p = buf +:+ "&" +:+ p.
Proof. intros H. unfold enc_step. by rewrite H, append_assoc. Qed.

Lemma append_nonempty (a b : string) :
  String.eqb a "" = false → String.eqb (a +:+ b) "" = false.
Proof. by destruct a. Qed.

Lemma foldl_enc_step (buf : string) (ps : list string) :
  String.eqb buf "" = false → foldl enc_step buf ps = buf +:+ amp_tail ps.
Proof.
  revert buf. induction ps as [|p ps IH]; intros buf Hbuf; simpl.
  - by rewrite append_empty_r.
  - rewrite enc_step_nonempty by done.
    rewrite IH by (by apply append_nonempty).
    by rewrite !append_assoc.
Qed.

Lemma pieces_amp_tail (p : string) (ps : list string) :
  Forall (λ p, no_byte "&" p = true) (p :: ps) →
  pieces (p +:+ amp_tail ps) = p :: ps.
Proof.
  revert p. induction ps as [|q ps IH]; intros p Hall.
  - simpl. rewrite append_empty_r. apply pieces_no_amp. by inversion Hall.
  - inversion Hall as [|? ? Hp Hrest]; subst. simpl.
    change ("&" +:+ q +:+ amp_tail ps) with (String "&" (q +:+ amp_tail ps)).
    rewrite pieces_app by done. by rewrite IH.
Qed.

Lemma omap_parse_piece_enc (kxs : list (string * string)) :
  omap parse_piece (enc_piece <$> kxs) = kxs.
Proof.
  induction kxs as [|kx kxs IH]; [done |].
  rewrite fmap_cons. csimpl. rewrite parse_piece_enc. csimpl. by rewrite IH.
Qed.

(** Parsing the items written by [Values.Encode] gives back the pairs. *)
Lemma parse_pairs_encoded (kxs : list (string * string)) :
  parse_pairs (foldl enc_step "" (enc_piece <$> kxs)) = kxs.
Proof.
  unfold parse_pairs. destruct kxs as [|kx kxs]; [done |].
  simpl. unfold enc_step at 2. simpl. rewrite append_empty_l.
  rewrite foldl_enc_step by apply enc_piece_nonempty.
  rewrite pieces_amp_tail.
  - apply (omap_parse_piece_enc (kx :: kxs)).
  - change (Forall (λ p, no_byte "&" p = true) (enc_piece <$> kx :: kxs)).
    apply Forall_fmap, Forall_forall. intros y _. simpl.
    apply enc_piece_no_byte; [apply escaped_not_amp | done].
Qed.

Lemma foldl_enc_safe (buf : string) (kxs : list (string * string)) :
  query_safe buf = true → query_safe (foldl enc_step buf (enc_piece <$> kxs)) = true.
Proof.
  revert buf. induction kxs as [|kx kxs IH]; intros buf Hbuf; [done |].
  simpl. apply IH. unfold enc_step, query_safe, enc_piece in *.
  assert (∀ s, all_bytes query_byte (QueryEscape s) = true) as Hq.
  { intros s. eapply all_bytes_impl; [apply escaped_query_byte | apply QueryEscape_escaped]. }
  destruct (String.eqb buf ""); rewrite !all_bytes_app, ?Hbuf, !Hq; done.
Qed.

(** ** Query parameters as a multiset *)

Lemma pairs_of_empty : pairs_of ∅ = [].
Proof. unfold pairs_of. by rewrite map_to_list_empty. Qed.

Lemma pairs_of_Add (v : Values) (k x : string) :
  pairs_of (Values_Add v k x) ≡ₚ pairs_of v ++ [(k, x)].
Proof.
  unfold pairs_of, Values_Add. destruct (v !! k) as [vs|] eqn:Hk; simpl.
  - rewrite <-insert_delete_eq.
    rewrite map_to_list_insert by apply lookup_delete_eq.
    rewrite <-(map_to_list_delete v k vs) by done.
    csimpl. rewrite fmap_app. simpl.
    rewrite <-!(assoc_L (++)). apply Permutation_app_head, Permutation_app_comm.
  - rewrite map_to_list_insert by done. csimpl.
    change ((k, x) :: ?l) with ([(k, x)] ++ l). apply Permutation_app_comm.
Qed.

Lemma pairs_of_foldl_Add (v : Values) (l : list (string * string)) :
  pairs_of (foldl (λ m kv, Values_Add m kv.1 kv.2) v l) ≡ₚ pairs_of v ++ l.
Proof.
  revert v. induction l as [|kv l IH]; intros v; simpl.
  - by rewrite app_nil_r.
  - rewrite IH, pairs_of_Add. destruct kv. by rewrite <-(assoc_L (++)).
Qed.

Lemma pairs_of_ParseQuery (q : string) : pairs_of (ParseQuery q) ≡ₚ parse_pairs q.
Proof. unfold ParseQuery. by rewrite pairs_of_foldl_Add, pairs_of_empty. Qed.

Section BuildURL.
Context `{Lib : GoLib}.

Lemma pairs_of_addParams (q : Values) (entries : list (string * string)) :
  pairs_of (addParams q entries) ≡ₚ pairs_of q ++ kept_params entries.
Proof.
  unfold addParams, kept_params. revert q.
  induction entries as [|kv l IH]; intros q; simpl.
  - by rewrite app_nil_r.
  - rewrite IH. rewrite filter_cons. destruct (blank kv.1) eqn:Hb.
    + rewrite decide_False by done. done.
    + rewrite decide_True by done. rewrite pairs_of_Add.
      destruct kv. by rewrite <-(assoc_L (++)).
Qed.

Lemma range_empty {V} : range (∅ : gmap string V) = [].
Proof. apply Permutation_nil_r. by rewrite range_perm, map_to_list_empty. Qed.

Lemma foldl_enc_values (k : string) (vs : list string) (buf : string) :
  foldl (λ buf x,
           (if String.eqb buf "" then buf else buf +:+ "&")
             +:+ QueryEscape k +:+ "=" +:+ QueryEscape x) buf vs
  = foldl enc_step buf (enc_piece <$> ((k,.) <$> vs)).
Proof. revert buf. induction vs as [|x vs IH]; intros buf; [done |]. simpl. apply IH. Qed.

Lemma foldl_enc_keys (v : Values) (keys : list string) (buf : string) :
  foldl (λ buf k,
           foldl (λ buf x,
                    (if String.eqb buf "" then buf else buf +:+ "&")
                      +:+ QueryEscape k +:+ "=" +:+ QueryEscape x)
                 buf (default [] (v !! k))) buf keys
  = foldl enc_step buf (enc_piece <$> (keys ≫= λ k, (k,.) <$> default [] (v !! k))).
Proof.
  revert buf. induction keys as [|k keys IH]; intros buf; [done |].
  simpl. rewrite IH. csimpl. rewrite fmap_app, foldl_app.
  by rewrite foldl_enc_values.
Qed.

Lemma Values_Encode_pieces (v : Values) :
  Values_Encode v = foldl enc_step "" (enc_piece <$> sorted_pairs v).
Proof.
  unfold Values_Encode, sorted_pairs.
  destruct (size v =? 0)%nat eqn:Hsz.
  - apply Nat.eqb_eq, map_size_empty_inv in Hsz. subst v.
    by rewrite range_empty.
  - apply foldl_enc_keys.
Qed.

Lemma sorted_pairs_perm (v : Values) : sorted_pairs v ≡ₚ pairs_of v.
Proof.
  unfold sorted_pairs, pairs_of.
  rewrite merge_sort_Permutation, range_perm.
  assert (Forall (λ kvs, v !! kvs.1 = Some kvs.2) (map_to_list v)) as Hall.
  { apply Forall_forall. intros [k vs] Hin. by apply elem_of_map_to_list. }
  induction Hall as [|[k vs] l Hk _ IH]; [done |].
  csimpl in *. by rewrite Hk, IH.
Qed.

Lemma parse_pairs_Encode (v : Values) : parse_pairs (Values_Encode v) = sorted_pairs v.
Proof. by rewrite Values_Encode_pieces, parse_pairs_encoded. Qed.

Lemma Values_Encode_safe (v : Values) : query_safe (Values_Encode v) = true.
Proof. rewrite Values_Encode_pieces. by apply foldl_enc_safe. Qed.

Lemma Query_Encode (v : Values) :
  pairs_of (ParseQuery (Values_Encode v)) ≡ₚ pairs_of v.
Proof. by rewrite pairs_of_ParseQuery, parse_pairs_Encode, sorted_pairs_perm. Qed.

(** C5. For a base URL that is not blank and parses, and any map of
    extra parameters (nil included), [buildURL] succeeds, its result
    parses again, and the query parameters of the result are, as a
    multiset, those of the base URL together with the entries of the
    map whose key is not blank; entries with a blank key are skipped. *)
Theorem buildURL_query_union (baseURL : string) (u : URL)
    (params : option (gmap string string)) :
  blank baseURL = false →
  url_Parse baseURL = Ok u →
  ∃ built u',
    buildURL baseURL params = Ok built
    ∧ url_Parse built = Ok u'
    ∧ pairs_of (Query u')
        ≡ₚ pairs_of (Query u) ++ kept_params (map_to_list (default ∅ params)).
Proof.
  intros Hblank Hparse. unfold buildURL. rewrite Hblank, Hparse.
  assert (∃ u', url_Parse (URL_String u) = Ok u' ∧ RawQuery u' = RawQuery u)
    as (u0 & Hu0 & Hq0).
  { destruct (Parse_String baseURL u (RawQuery u) Hparse) as (u' & H1 & H2); [by left |].
    exists u'. by destruct u. }
  destruct params as [p|]; simpl.
  - destruct (size p =? 0)%nat eqn:Hsz.
    + apply Nat.eqb_eq, map_size_empty_inv in Hsz. subst p.
      exists (URL_String u), u0. split_and!; [done.. |].
      unfold Query. rewrite Hq0, map_to_list_empty. by rewrite app_nil_r.
    + destruct (Parse_String baseURL u
                  (Values_Encode (addParams (Query u) (range p))) Hparse)
        as (u' & H1 & H2); [right; apply Values_Encode_safe |].
      eexists _, u'. split_and!; [done.. |].
      unfold Query at 1. rewrite H2, Query_Encode, pairs_of_addParams.
      unfold kept_params. by rewrite range_perm.
  - exists (URL_String u), u0. split_and!; [done.. |].
    unfold Query. rewrite Hq0, map_to_list_empty. by rewrite app_nil_r.
Qed.

End BuildURL.

(** ** The reference platform meets the laws of the library *)

Lemma query_byte_no_ctl c : query_byte c = true → negb (Ref.ctl c) = true.
Proof. each_byte c; done. Qed.

Lemma query_byte_not_hash c : query_byte c = true → negb (Ascii.eqb c "#") = true.
Proof. each_byte c; done. Qed.

Lemma Ref_Parse_render (s : string) (u : URL) (q : string) :
  Ref.Parse s = Ok u →
  q = RawQuery u ∨ query_safe q = true →
  ∃ u', Ref.Parse (Ref.render (set_RawQuery u q)) = Ok u' ∧ RawQuery u' = q.
Proof.
  unfold Ref.Parse. destruct (Ref.no_ctl s) eqn:Hctl; [|done].
  intros [= <-] Hq. unfold Ref.render. simpl.
  set (rest := (Cut "#" s).1). set (frag := (Cut "#" s).2).
  set (pre := (Cut "?" rest).1).
  destruct (Cut_all_bytes _ "#" s Hctl) as [Hrest Hfrag]. fold rest frag in Hrest, Hfrag.
  destruct (Cut_all_bytes _ "?" rest Hrest) as [Hpre Hquery]. fold pre in Hpre.
  pose proof (Cut_fst_no_byte "#" s) as Hrest_hash. fold rest in Hrest_hash.
  destruct (Cut_all_bytes _ "?" rest Hrest_hash) as [Hpre_hash Hquery_hash].
  fold pre in Hpre_hash.
  change (no_byte "#" pre = true) in Hpre_hash.
  change (no_byte "#" (Cut "?" rest).2 = true) in Hquery_hash.
  change (Ref.no_ctl pre = true) in Hpre.
  change (Ref.no_ctl frag = true) in Hfrag.
  change (Ref.no_ctl (Cut "?" rest).2 = true) in Hquery.
  pose proof (Cut_fst_no_byte "?" rest) as Hpre_q. fold pre in Hpre_q.
  assert (Ref.no_ctl q = true ∧ no_byte "#" q = true) as [Hq_ctl Hq_hash].
  { destruct Hq as [->|Hq]; [done |]. split.
    - eapply all_bytes_impl; [apply query_byte_no_ctl | apply Hq].
    - eapply all_bytes_impl; [apply query_byte_not_hash | apply Hq]. }
  set (Q := if String.eqb q "" then "" else String "?" q).
  assert (Ref.no_ctl Q = true ∧ no_byte "#" Q = true) as [HQ_ctl HQ_hash].
  { unfold Q. destruct (String.eqb q ""); [done |]. unfold Ref.no_ctl, no_byte in *.
    simpl. by rewrite Hq_ctl, Hq_hash. }
  assert (Cut "?" (pre +:+ Q) = (pre, q)) as Hcut_q.
  { unfold Q. destruct (String.eqb_spec q "") as [->|_].
    - rewrite append_empty_r. by apply Cut_none.
    - by apply Cut_app. }
  assert (Cut "#" (pre +:+ Q +:+ (if String.eqb frag "" then "" else String "#" frag))
          = (pre +:+ Q, frag)) as Hcut_f.
  { rewrite <-append_assoc. destruct (String.eqb_spec frag "") as [->|_].
    - rewrite append_empty_r. apply Cut_none. by rewrite no_byte_app, Hpre_hash, HQ_hash.
    - apply Cut_app. by rewrite no_byte_app, Hpre_hash, HQ_hash. }
  assert (Ref.no_ctl (pre +:+ Q +:+ (if String.eqb frag "" then "" else String "#" frag))
          = true) as ->.
  { unfold Ref.no_ctl in *. rewrite !all_bytes_app, Hpre, HQ_ctl.
    destruct (String.eqb frag ""); [done |]. simpl. by rewrite Hfrag. }
  rewrite Hcut_f. simpl. rewrite Hcut_q. eauto.
Qed.

(** The reference library: the laws of [GoLib] hold of it, so the
    theorems stated for every library apply to its runs. *)
Definition refLib : GoLib :=
  {| range := λ V, map_to_list;
     range_perm := λ V m, reflexivity (map_to_list m);
     ToLower := ToLowerASCII;
     ToLower_ascii := λ s _, eq_refl;
     url_Parse := Ref.Parse;
     URL_String := Ref.render;
     Parse_String := Ref_Parse_render;
     json_Marshal := Ref.Marshal;
     multipart_WriteField := Ref.WriteField;
     multipart_Close := Ref.CloseWriter;
     http_NewRequest := Ref.NewRequest;
     HeaderOrderKey := "Header-Order:";
     Sprintf_w := λ e, "%!w(" +:+ e +:+ ")" |}.

Example buildURL_ex1 :
  buildURL (Lib := refLib) "https://example.com/s?q=go&lang=en"
    (Some {[ "page" := "1"; "q" := "a b"; " " := "dropped" ]})
  = Ok "https://example.com/s?lang=en&page=1&q=go&q=a+b".
Proof. reflexivity. Qed.

(** ** Header formatting *)

Section FormatHeaders.
Context `{Lib : GoLib} {T : Type}.

Lemma formatHeaders_loop_blank (s : Session T) entries formatted order :
  Exists (λ kv : string * string, blank kv.1 = true) entries →
  formatHeaders_loop s entries formatted order = Fail "header key cannot be empty".
Proof.
  intros Hex. revert formatted order.
  induction Hex as [[k v] l Hb|[k v] l _ IH]; intros formatted order; simpl in *.
  - by rewrite Hb.
  - destruct (blank k); [done | apply IH].
Qed.

Lemma formatHeaders_loop_ok (s : Session T) entries formatted order :
  Forall (λ kv : string * string, blank kv.1 = false) entries →
  formatHeaders_loop s entries formatted order
  = Ok (foldl (store s) formatted entries, order ++ entries.*1).
Proof.
  intros Hall. revert formatted order.
  induction Hall as [|[k v] l Hb _ IH]; intros formatted order; simpl in *.
  - by rewrite app_nil_r.
  - rewrite Hb, IH. by rewrite <-(assoc_L (++)).
Qed.

Lemma foldl_store_notin (s : Session T) entries formatted (k : string) :
  k ∉ entries.*1 → foldl (store s) formatted entries !! k = formatted !! k.
Proof.
  revert formatted. induction entries as [|[k' v'] l IH]; intros formatted Hk; [done |].
  rewrite fmap_cons, not_elem_of_cons in Hk. destruct Hk as [Hne Hk].
  simpl. rewrite IH by done. unfold store. simpl. by rewrite lookup_insert_ne.
Qed.

Lemma foldl_store_lookup (s : Session T) entries formatted (k v : string) :
  NoDup entries.*1 → (k, v) ∈ entries →
  foldl (store s) formatted entries !! k = Some [applyDefault s (ToLower k) v].
Proof.
  revert formatted. induction entries as [|[k' v'] l IH]; intros formatted Hnd Hin.
  - by apply elem_of_nil in Hin.
  - rewrite fmap_cons in Hnd. apply NoDup_cons in Hnd as [Hk' Hnd].
    apply elem_of_cons in Hin as [[= -> ->]|Hin]; simpl.
    + rewrite foldl_store_notin by done. unfold store. simpl.
      by rewrite lookup_insert_eq.
    + by apply IH.
Qed.

Lemma range_NoDup {V} (m : gmap string V) : NoDup (range m).*1.
Proof. rewrite range_perm. apply NoDup_fst_map_to_list. Qed.

Lemma elem_of_range {V} (m : gmap string V) k v : (k, v) ∈ range m ↔ m !! k = Some v.
Proof. rewrite range_perm. apply elem_of_map_to_list. Qed.

(** A blank key makes [formatHeaders] fail, whatever the order of the
    entries. *)
Lemma formatHeaders_blank (s : Session T) (h : gmap string string) (k : string) :
  is_Some (h !! k) → blank k = true →
  formatHeaders s (Some h) = Fail "header key cannot be empty".
Proof.
  intros [v Hk] Hb. unfold formatHeaders.
  rewrite formatHeaders_loop_blank; [done |].
  apply Exists_exists. exists (k, v). split; [by apply elem_of_range | done].
Qed.

(** Without one it succeeds. *)
Lemma formatHeaders_ok (s : Session T) (h : gmap string string) :
  (∀ k, is_Some (h !! k) → blank k = false) →
  formatHeaders s (Some h)
  = Ok (<[HeaderOrderKey := (range h).*1]> (foldl (store s) ∅ (range h))).
Proof.
  intros Hall. unfold formatHeaders.
  rewrite formatHeaders_loop_ok; [done |].
  apply Forall_forall. intros [k v] Hin. apply elem_of_range in Hin. eauto.
Qed.

Lemma formatHeaders_cases (s : Session T) (headers : option (gmap string string)) :
  formatHeaders s headers = Fail "header key cannot be empty"
  ∨ ∃ out, formatHeaders s headers = Ok out.
Proof.
  destruct headers as [h|]; [|right; by eexists].
  unfold formatHeaders.
  destruct (Exists_dec (λ kv : string * string, blank kv.1 = true) (range h)) as [Hex|Hnex].
  - left. by rewrite formatHeaders_loop_blank.
  - right. rewrite formatHeaders_loop_ok; [by eexists |].
    apply not_Exists_Forall in Hnex; [|intros; apply _].
    eapply Forall_impl; [apply Hnex |]. simpl. intros kv Hkv. by destruct (blank kv.1).
Qed.

Lemma formatHeaders_lookup (s : Session T) (h : gmap string string) out (k v : string) :
  formatHeaders s (Some h) = Ok out →
  h !! k = Some v → k ≠ HeaderOrderKey →
  out !! k = Some [applyDefault s (ToLower k) v].
Proof.
  intros Hfmt Hk Hne. unfold formatHeaders in Hfmt.
  destruct (formatHeaders_loop s (range h) ∅ []) as [[formatted order]|e] eqn:Hloop; [|done].
  injection Hfmt as <-. rewrite lookup_insert_ne by done.
  destruct (Exists_dec (λ kv : string * string, blank kv.1 = true) (range h)) as [Hex|Hnex].
  - by rewrite formatHeaders_loop_blank in Hloop.
  - rewrite formatHeaders_loop_ok in Hloop.
    + injection Hloop as <- _.
      apply foldl_store_lookup; [apply range_NoDup | by apply elem_of_range].
    + apply not_Exists_Forall in Hnex; [|intros; apply _].
      eapply Forall_impl; [apply Hnex |]. simpl. intros kv Hkv. by destruct (blank kv.1).
Qed.

(** C6, as amended. In the output of [formatHeaders], an entry whose
    key is not the header-order key of the transport and lower-cases to
    one of the three reserved names carries the session default when
    its value is empty or ["default"]; any other such entry carries its
    own value. *)
Theorem formatHeaders_defaults (s : Session T) (h : gmap string string) (out : Header)
    (key value : string) :
  formatHeaders s (Some h) = Ok out →
  h !! key = Some value →
  key ≠ HeaderOrderKey →
  let sentinel := value = "" ∨ value = "default" in
  (ToLower key = "user-agent" → sentinel → out !! key = Some [UserAgent s])
  ∧ (ToLower key = "sec-ch-ua" → sentinel → out !! key = Some [SecChUa s])
  ∧ (ToLower key = "sec-ch-ua-platform" → sentinel →
     out !! key = Some [SecChUaPlatform s])
  ∧ ((ToLower key ≠ "user-agent" ∧ ToLower key ≠ "sec-ch-ua"
      ∧ ToLower key ≠ "sec-ch-ua-platform") ∨ ¬ sentinel →
     out !! key = Some [value]).
Proof.
  intros Hfmt Hk Hne sentinel.
  rewrite (formatHeaders_lookup s h out key value) by done.
  assert (sentinel ↔ String.eqb value "" || String.eqb value "default" = true) as Hs.
  { unfold sentinel. rewrite orb_true_iff, !String.eqb_eq. done. }
  unfold applyDefault. split_and!.
  - intros -> Hv. apply Hs in Hv. simpl. by rewrite Hv.
  - intros -> Hv. apply Hs in Hv. simpl. by rewrite Hv.
  - intros -> Hv. apply Hs in Hv. simpl. by rewrite Hv.
  - intros Hcase.
    destruct (String.eqb value "" || String.eqb value "default") eqn:Hv.
    + destruct Hcase as [(H1 & H2 & H3)|Hn]; [|by destruct Hn; apply Hs].
      apply String.eqb_neq in H1, H2, H3. by rewrite H1, H2, H3.
    + by repeat destruct (String.eqb (ToLower key) _).
Qed.

End FormatHeaders.

(** ** The retry driver *)

Lemma add_trace_nil {T} (w : World T) : add_trace w [] = w.
Proof. destruct w. unfold add_trace. simpl. by rewrite app_nil_r. Qed.

Lemma add_trace_app {T} (w : World T) (a b : list Event) :
  add_trace (add_trace w a) b = add_trace w (a ++ b).
Proof. unfold add_trace. simpl. by rewrite (assoc_L (++)). Qed.

Lemma set_Client_id {T} (s : Session T) (c : T) : Client s = Some c → set_Client s (Some c) = s.
Proof. destruct s. simpl. by intros ->. Qed.

Lemma append_prefix_nonempty (c : ascii) (a b : string) : String c a +:+ b ≠ "".
Proof. done. Qed.

Section Retry.
Context `{Lib : GoLib} {T : Type} `{Tr : !Transport T}.

Lemma formatHeaders_set_Client (s : Session T) (c : option T) headers :
  formatHeaders (set_Client s c) headers = formatHeaders s headers.
Proof.
  destruct headers as [h|]; [|done]. unfold formatHeaders.
  assert (∀ entries formatted order,
            formatHeaders_loop (set_Client s c) entries formatted order
            = formatHeaders_loop s entries formatted order) as ->; [|done].
  induction entries as [|[k v] l IH]; intros formatted order; [done |].
  simpl. destruct (blank k); [done |]. apply IH.
Qed.

Lemma handleResponse_Do (s : Session T) (c : T) request req hs (w : World T) :
  self w = Some s → Client s = Some c →
  formatHeaders s (RequestOptions.Headers request) = Ok hs →
  handleResponse request req None w
  = (attemptResponse (Request.set_Header req hs) (client_Do c (Request.set_Header req hs)).1,
     {| self := Some (set_Client s (Some (client_Do c (Request.set_Header req hs)).2));
        trace := trace w ++ [EvDo (Request.set_Header req hs)];
        entropy := entropy w |}).
Proof.
  intros Hs Hc Hh. unfold handleResponse, bind, get_self, emit, set_self, ret.
  rewrite Hs, Hc, Hh. simpl.
  destruct (client_Do c (Request.set_Header req hs)) as [[resp|e] c']; simpl; [|done].
  by destruct (HttpResponse.ReadAll resp).
Qed.

Lemma handleResponse_bad_headers (s : Session T) (c : T) request req e (w : World T) :
  self w = Some s → Client s = Some c →
  formatHeaders s (RequestOptions.Headers request) = Fail e →
  handleResponse request req None w
  = (emptyResponse ("Error formatting headers: " +:+ e), w).
Proof.
  intros Hs Hc Hh. unfold handleResponse, bind, get_self, ret.
  by rewrite Hs, Hc, Hh.
Qed.

(** A response of [handleResponse] is a success or has the shape of a
    failure. *)
Lemma handleResponse_shape request req err (w : World T) :
  Response.Error (handleResponse request req err w).1 = "" 
  ∨ error_shaped (handleResponse request req err w).1.
Proof.
  unfold handleResponse, bind, get_self, emit, set_self, ret.
  destruct err as [e|]; [by right |]. simpl.
  destruct (self w) as [s|]; [|by right].
  destruct (Client s) as [c|]; [|by right].
  destruct (formatHeaders s (RequestOptions.Headers request)) as [hs|e]; [|by right]. simpl.
  destruct (client_Do c (Request.set_Header req hs)) as [[resp|e] c']; simpl; [|by right].
  destruct (HttpResponse.ReadAll resp); [by left | by right].
Qed.

(** One turn of the loop, when the attempt succeeds and when it fails. *)
Lemma retryLoop_success turns attempt maxRetries request req last (w w1 : World T) resp :
  handleResponse request req None w = (resp, w1) →
  Response.Error resp = "" →
  retryLoop (S turns) attempt maxRetries request req last w = (resp, w1).
Proof. intros Hh He. cbn [retryLoop]. unfold bind at 1. by rewrite Hh, He. Qed.

Lemma retryLoop_failure turns attempt maxRetries request req last (w w1 : World T) resp :
  handleResponse request req None w = (resp, w1) →
  Response.Error resp ≠ "" →
  retryLoop (S turns) attempt maxRetries request req last w
  = retryLoop turns (attempt + 1) maxRetries request req resp
      (if attempt <? maxRetries - 1 then add_trace w1 [EvSleep (backoff attempt)] else w1).
Proof.
  intros Hh He. cbn [retryLoop]. unfold bind at 1. rewrite Hh.
  apply String.eqb_neq in He. rewrite He. unfold bind, emit, ret, add_trace.
  by destruct (attempt <? maxRetries - 1).
Qed.

Lemma sleeps_S attempt n :
  sleeps attempt (S n) = EvSleep (backoff attempt) :: sleeps (attempt + 1) n.
Proof.
  unfold sleeps. simpl. rewrite Z.add_0_r. f_equal.
  rewrite <-fmap_S_seq, <-list_fmap_compose. apply list_fmap_ext.
  intros _ i _. simpl. do 2 f_equal. lia.
Qed.

Lemma count_Do_sleeps attempt n : count_Do (sleeps attempt n) = 0%nat.
Proof.
  revert attempt. induction n as [|n IH]; intros attempt; [done |].
  rewrite sleeps_S. unfold count_Do in *. rewrite filter_cons. simpl. apply IH.
Qed.

Lemma count_Sleep_sleeps attempt n : count_Sleep (sleeps attempt n) = n.
Proof.
  revert attempt. induction n as [|n IH]; intros attempt; [done |].
  rewrite sleeps_S. unfold count_Sleep in *. rewrite filter_cons. simpl. by rewrite IH.
Qed.

(** When the headers do not format, every turn fails without reaching the
    transport, and the loop sleeps between the turns. *)
Lemma retryLoop_bad_headers (s : Session T) (c : T) request req e maxRetries :
  Client s = Some c →
  formatHeaders s (RequestOptions.Headers request) = Fail e →
  ∀ turns attempt last (w : World T),
    self w = Some s →
    attempt + Z.of_nat (S turns) = maxRetries →
    retryLoop (S turns) attempt maxRetries request req last w
    = (exhausted maxRetries (emptyResponse ("Error formatting headers: " +:+ e)),
       add_trace w (sleeps attempt turns)).
Proof.
  intros Hc Hh. induction turns as [|turns IH]; intros attempt last w Hs Hm.
  - erewrite retryLoop_failure;
      [|by apply (handleResponse_bad_headers s c) | apply append_prefix_nonempty].
    replace (attempt <? maxRetries - 1) with false by (symmetry; apply Z.ltb_ge; lia).
    simpl. by rewrite add_trace_nil.
  - erewrite retryLoop_failure;
      [|by apply (handleResponse_bad_headers s c) | apply append_prefix_nonempty].
    replace (attempt <? maxRetries - 1) with true by (symmetry; apply Z.ltb_lt; lia).
    rewrite IH by (done || lia).
    by rewrite add_trace_app, sleeps_S.
Qed.

End Retry.

Section RetryAttempts.
Context `{Lib : GoLib} {T : Type} `{Tr : !Transport T}.
Context (s : Session T) (request : RequestOptions.t) (req : Request.t) (hs : Header).
Context (maxRetries : Z).

Lemma failed_attempts_S attempt k :
  failed_attempts req hs maxRetries attempt (S k)
  = EvDo (sent req hs) ::
      (if attempt <? maxRetries - 1 then [EvSleep (backoff attempt)] else [])
      ++ failed_attempts req hs maxRetries (attempt + 1) k.
Proof.
  unfold failed_attempts. simpl. rewrite Z.add_0_r. f_equal. f_equal.
  rewrite <-fmap_S_seq. rewrite list_fmap_bind.
  apply list_bind_ext; [|done]. intros i. simpl.
  by replace (attempt + 1 + Z.of_nat i) with (attempt + Z.pos (Pos.of_succ_nat i)) by lia.
Qed.

(** The loop runs through any number of failing attempts. *)
Lemma retryLoop_failed_attempts :
  formatHeaders s (RequestOptions.Headers request) = Ok hs →
  ∀ (k turns : nat) (attempt : Z) (last : Response.t) (w : World T) (c : T),
    self w = Some (set_Client s (Some c)) →
    (∀ i, (i < k)%nat → Response.Error (attemptResponse (sent req hs) (answer c (sent req hs) i)) ≠ "") →
    retryLoop (k + turns) attempt maxRetries request req last w
    = retryLoop turns (attempt + Z.of_nat k) maxRetries request req (last_after req hs last c k)
        {| self := Some (set_Client s (Some (client_after c (sent req hs) k)));
           trace := trace w ++ failed_attempts req hs maxRetries attempt k;
           entropy := entropy w |}.
Proof.
  intros Hh. induction k as [|k IH]; intros turns attempt last w c Hs Hfail.
  - simpl. rewrite Z.add_0_r. f_equal.
    destruct w as [sw tw ew]. simpl in *. subst sw.
    unfold failed_attempts. simpl. by rewrite app_nil_r.
  - change (S k + turns)%nat with (S (k + turns)).
    erewrite retryLoop_failure; cycle 1.
    { eapply (handleResponse_Do (set_Client s (Some c)) c); [done | done |].
      by rewrite formatHeaders_set_Client. }
    { apply (Hfail 0%nat). lia. }
    set (resp := attemptResponse (Request.set_Header req hs)
                   (client_Do c (Request.set_Header req hs)).1).
    erewrite (IH turns (attempt + 1) resp _ (client_Do c (sent req hs)).2); cycle 1.
    { by destruct (attempt <? maxRetries - 1). }
    { intros i Hi. apply (Hfail (S i)). lia. }
    f_equal; [lia | by destruct k |].
    f_equal; [|by destruct (attempt <? maxRetries - 1)].
    rewrite failed_attempts_S.
    destruct (attempt <? maxRetries - 1); simpl; by rewrite <-?(assoc_L (++)).
Qed.

Lemma count_Do_failed_attempts attempt k :
  count_Do (failed_attempts req hs maxRetries attempt k) = k.
Proof.
  revert attempt. induction k as [|k IH]; intros attempt; [done |].
  rewrite failed_attempts_S. unfold count_Do in *.
  rewrite filter_cons. simpl. rewrite filter_app, length_app, IH.
  by destruct (attempt <? maxRetries - 1).
Qed.

End RetryAttempts.

(** Attempts whose requests are not assumed equal. *)
Section RetryRequests.
Context `{Lib : GoLib} {T : Type} `{Tr : !Transport T}.

Lemma attemptResponse_Error (req : Request.t) (result : Err HttpResponse.t) :
  Response.Error (attemptResponse req result) = attemptError result.
Proof.
  destruct result as [resp|e]; simpl; [|done].
  by destruct (HttpResponse.ReadAll resp).
Qed.

Lemma attemptError_answered (result : Err HttpResponse.t) :
  attemptError result = "" ↔ answered result = true.
Proof.
  destruct result as [resp|e]; simpl; [|done].
  by destruct (HttpResponse.ReadAll resp).
Qed.

Lemma attemptError_failed (result : Err HttpResponse.t) :
  answered result = false → attemptError result ≠ "".
Proof. intros Hf He. apply attemptError_answered in He. congruence. Qed.

Lemma client_through_replicate (c : T) (r : Request.t) (k : nat) :
  client_through c (replicate k r) = client_after c r k.
Proof. revert c. induction k as [|k IH]; intros c; [done | apply IH]. Qed.

Lemma fails_next_answer (k : nat) (c : T) (r : Request.t) :
  fails_next k c → ∀ i, (i < k)%nat → answered (answer c r i) = false.
Proof.
  revert c. induction k as [|k IH]; intros c Hfail i Hi; [lia |].
  destruct (Hfail r) as [Hnow Hlater]. destruct i as [|i]; [done |].
  apply (IH _ Hlater). lia.
Qed.

Lemma fails_then_answers_answer (N : nat) (c : T) (r : Request.t) :
  fails_then_answers N c → fails_next N c ∧ answered (answer c r N) = true.
Proof.
  revert c. induction N as [|N IH]; intros c Hfta.
  - split; [done | apply Hfta].
  - split.
    + intros r'. destruct (Hfta r') as [Hnow Hlater]. split; [done |].
      by apply (IH _ Hlater).
    + destruct (Hfta r) as [_ Hlater]. by apply (IH _ Hlater).
Qed.

Lemma failed_attempts_attempts (req : Request.t) (hs : Header) (maxRetries attempt : Z)
    (k : nat) :
  failed_attempts req hs maxRetries attempt k
  = attempts maxRetries attempt (replicate k (sent req hs)).
Proof.
  revert attempt. induction k as [|k IH]; intros attempt; [done |].
  rewrite failed_attempts_S. simpl. by rewrite IH.
Qed.

Lemma replicate_snoc {A} (k : nat) (x : A) : replicate k x ++ [x] = replicate (S k) x.
Proof. induction k as [|k IH]; [done |]. simpl. by rewrite IH. Qed.

Lemma Forall_replicate_sent (req : Request.t) (hs : Header) (k : nat) :
  Forall (λ r, ∃ hs', r = Request.set_Header req hs') (replicate k (sent req hs)).
Proof. apply Forall_replicate. by exists hs. Qed.

Lemma no_blank_key_formats (s : Session T) (headers : option (gmap string string)) :
  no_blank_key headers = true → ∃ hs, formatHeaders s headers = Ok hs.
Proof.
  destruct headers as [h|]; [|by eexists]. simpl. intros Hall.
  eexists. apply formatHeaders_ok.
  intros k [v Hk]. apply elem_of_map_to_list in Hk.
  rewrite forallb_forall in Hall. apply list_elem_of_In, Hall in Hk.
  simpl in Hk. by destruct (blank k).
Qed.

End RetryRequests.

Section RetryTheorems.
Context `{Lib : GoLib} {T : Type} `{Tr : !Transport T}.

Lemma effectiveRetries_pos (m : Z) : 1 ≤ effectiveRetries m.
Proof. unfold effectiveRetries. destruct (Z.leb_spec m 0); lia. Qed.

Lemma exhausted_empty (m : Z) (e : string) :
  exhausted m (emptyResponse e)
  = emptyResponse ("max retries (" +:+ Itoa m +:+ ") exceeded: " +:+ e).
Proof. reflexivity. Qed.

Lemma executeWithRetry_unfold (s : Session T) request req (w : World T) :
  self w = Some s →
  executeWithRetry request req w
  = retryLoop (Z.to_nat (effectiveRetries (MaxRetries s))) 0
      (effectiveRetries (MaxRetries s)) request req Response.zero w.
Proof. intros Hs. unfold executeWithRetry, bind, get_self. by rewrite Hs. Qed.

(** C2, as amended. When the header map holds a blank key, the retry
    driver never reaches the transport, but the failure is produced inside
    the retry loop: with an effective budget of [n] attempts the loop
    sleeps [n - 1] times and returns the failure wrapped in the
    max-retries message. *)
Theorem executeWithRetry_blank_header_key (s : Session T) (c : T)
    (request : RequestOptions.t) (req : Request.t) (h : gmap string string)
    (k : string) (w : World T) :
  self w = Some s → Client s = Some c →
  RequestOptions.Headers request = Some h →
  is_Some (h !! k) → blank k = true →
  let n := effectiveRetries (MaxRetries s) in
  executeWithRetry request req w
  = (emptyResponse
       ("max retries (" +:+ Itoa n
          +:+ ") exceeded: Error formatting headers: header key cannot be empty"),
     add_trace w (sleeps 0 (Z.to_nat n - 1)))
  ∧ count_Do (sleeps 0 (Z.to_nat n - 1)) = 0%nat
  ∧ count_Sleep (sleeps 0 (Z.to_nat n - 1)) = (Z.to_nat n - 1)%nat.
Proof.
  intros Hs Hc Hh Hk Hb n. split_and!.
  - rewrite (executeWithRetry_unfold s) by done. fold n.
    pose proof (effectiveRetries_pos (MaxRetries s)) as Hn. fold n in Hn. clearbody n.
    destruct (Z.to_nat n) as [|turns] eqn:Hturns; [lia |].
    assert (formatHeaders s (RequestOptions.Headers request)
            = Fail "header key cannot be empty") as Hfmt.
    { rewrite Hh. by eapply formatHeaders_blank. }
    rewrite (retryLoop_bad_headers s c request req _ n Hc Hfmt turns 0 _ w Hs) by lia.
    rewrite exhausted_empty. by replace (S turns - 1)%nat with turns by lia.
  - apply count_Do_sleeps.
  - apply count_Sleep_sleeps.
Qed.

(** C1, as amended. With a budget of three attempts, headers that format
    and a transport whose every request fails with ["boom"], the retry
    driver makes three requests and returns the failure of
    [handleResponse], which prefixes the message of the transport. *)
Theorem executeWithRetry_boom (s : Session T) (c : T) (request : RequestOptions.t)
    (req : Request.t) (hs : Header) (w : World T) :
  self w = Some s → Client s = Some c →
  MaxRetries s = 3 →
  formatHeaders s (RequestOptions.Headers request) = Ok hs →
  (∀ c' req', (client_Do c' req').1 = Fail "boom") →
  (executeWithRetry request req w).1
  = emptyResponse "max retries (3) exceeded: Request error: boom"
  ∧ count_Do (trace (executeWithRetry request req w).2) = (count_Do (trace w) + 3)%nat.
Proof.
  intros Hs Hc Hm Hh Hboom.
  rewrite (executeWithRetry_unfold s) by done. rewrite Hm.
  change (Z.to_nat (effectiveRetries 3)) with (3 + 0)%nat.
  change (effectiveRetries 3) with 3.
  rewrite (retryLoop_failed_attempts s request req hs 3 Hh 3 0 0 _ w c).
  - simpl. unfold answer. rewrite Hboom. split; [done |].
    unfold count_Do. rewrite filter_app, length_app.
    fold (count_Do (failed_attempts req hs 3 0 3)).
    by rewrite count_Do_failed_attempts.
  - by rewrite set_Client_id.
  - intros i _. unfold answer. rewrite Hboom. done.
Qed.

(** A response with an empty error leaves the loop only from a turn whose
    attempt returned it. *)
Lemma retryLoop_success_exit turns attempt maxRetries request req last (w : World T) :
  Response.Error (retryLoop turns attempt maxRetries request req last w).1 = "" →
  ∃ w0, handleResponse request req None w0
        = retryLoop turns attempt maxRetries request req last w.
Proof.
  revert attempt last w. induction turns as [|turns IH]; intros attempt last w.
  - simpl. intros He. by apply append_prefix_nonempty in He.
  - destruct (handleResponse request req None w) as [resp w1] eqn:Hh.
    destruct (String.eqb_spec (Response.Error resp) "") as [He|He].
    + intros _. exists w. by rewrite (retryLoop_success _ _ _ _ _ _ _ w1 resp).
    + rewrite (retryLoop_failure _ _ _ _ _ _ _ w1 resp) by done. apply IH.
Qed.

(** C3. On a usable session whose headers hold no blank key and whose
    budget in effect is at least [N + 1], if the transport fails the next
    [N] attempts (the request fails or the body of the answer cannot be
    read) and answers the attempt after those, then the retry driver
    makes exactly [N + 1] requests and returns the answer to the last of
    them unchanged: its status code, headers and cookies, the body read
    from it, the location it names (the URL of the request without one),
    and an empty error. Moreover a response with an empty error is only
    ever returned as the response of an attempt, straight after that
    attempt. *)
Theorem executeWithRetry_succeeds_after_failures (N : nat) (s : Session T) (c : T)
    (request : RequestOptions.t) (req : Request.t) (w : World T) :
  self w = Some s → Client s = Some c →
  Z.of_nat N + 1 ≤ effectiveRetries (MaxRetries s) →
  no_blank_key (RequestOptions.Headers request) = true →
  fails_then_answers N c →
  (∃ reqs r resp body,
     length reqs = N
     ∧ Forall (λ r', ∃ hs, r' = Request.set_Header req hs) (reqs ++ [r])
     ∧ trace (executeWithRetry request req w).2
       = trace w ++ attempts (effectiveRetries (MaxRetries s)) 0 reqs ++ [EvDo r]
     ∧ (client_Do (client_through c reqs) r).1 = Ok resp
     ∧ HttpResponse.ReadAll resp = Ok body
     ∧ Response.Error (executeWithRetry request req w).1 = ""
     ∧ Response.StatusCode (executeWithRetry request req w).1
       = HttpResponse.StatusCode resp
     ∧ Response.Body (executeWithRetry request req w).1 = Some body
     ∧ Response.Headers (executeWithRetry request req w).1 = HttpResponse.Header resp
     ∧ Response.Cookies (executeWithRetry request req w).1 = HttpResponse.Cookies resp
     ∧ Response.Url (executeWithRetry request req w).1
       = Some (default (Request.URL req) (HttpResponse.Location resp)))
  ∧ count_Do (trace (executeWithRetry request req w).2)
    = (count_Do (trace w) + (N + 1))%nat
  ∧ (∀ request' req' (w' : World T),
       Response.Error (executeWithRetry request' req' w').1 = "" →
       ∃ w0, handleResponse request' req' None w0 = executeWithRetry request' req' w').
Proof.
  intros Hs Hc Hbudget Hkeys Hfta.
  destruct (no_blank_key_formats s _ Hkeys) as [hs Hh].
  destruct (fails_then_answers_answer N c (sent req hs) Hfta) as [Hfail Hok].
  destruct (answer c (sent req hs) N) as [resp|e] eqn:Hans; [|done]. simpl in Hok.
  destruct (HttpResponse.ReadAll resp) as [body|e] eqn:Hbody; [|done].
  set (n := effectiveRetries (MaxRetries s)) in *.
  assert (executeWithRetry request req w
          = (successResponse (sent req hs) resp body,
             {| self := Some (set_Client s (Some (client_after c (sent req hs) (S N))));
                trace := (trace w ++ failed_attempts req hs n 0 N)
                           ++ [EvDo (sent req hs)];
                entropy := entropy w |})) as Hrun.
  { rewrite (executeWithRetry_unfold s) by done. fold n.
    replace (Z.to_nat n) with (N + S (Z.to_nat n - N - 1))%nat by lia.
    rewrite (retryLoop_failed_attempts s request req hs n Hh N _ 0 _ w c).
    - erewrite retryLoop_success; [reflexivity | |].
      + erewrite (handleResponse_Do (set_Client s (Some (client_after c (sent req hs) N))));
          [| done | done | by rewrite formatHeaders_set_Client].
        fold (sent req hs). fold (answer c (sent req hs) N).
        unfold attemptResponse. rewrite Hans, Hbody. simpl.
        f_equal. f_equal. f_equal. f_equal.
        clear. revert c. induction N as [|k IH]; intros c; [done | apply IH].
      + done.
    - by rewrite set_Client_id.
    - intros i Hi. rewrite attemptResponse_Error.
      apply attemptError_failed. by apply fails_next_answer with N. }
  rewrite Hrun. simpl. split_and!.
  - exists (replicate N (sent req hs)), (sent req hs), resp, body.
    split_and!; try done.
    + apply length_replicate.
    + rewrite replicate_snoc. apply Forall_replicate_sent.
    + by rewrite failed_attempts_attempts, <-(assoc_L (++)).
    + by rewrite client_through_replicate.
  - unfold count_Do. rewrite !filter_app, !length_app.
    fold (count_Do (failed_attempts req hs n 0 N)).
    rewrite count_Do_failed_attempts. simpl. lia.
  - intros request' req' w' He. unfold executeWithRetry, bind, get_self in *.
    by apply retryLoop_success_exit.
Qed.

(** The loop keeps the shape of a failure. *)
Lemma retryLoop_shape turns attempt maxRetries request req last (w : World T) :
  error_shaped last →
  Response.Error (retryLoop turns attempt maxRetries request req last w).1 = ""
  ∨ error_shaped (retryLoop turns attempt maxRetries request req last w).1.
Proof.
  revert attempt last w. induction turns as [|turns IH]; intros attempt last w Hlast.
  - by right.
  - destruct (handleResponse request req None w) as [resp w1] eqn:Hh.
    destruct (String.eqb_spec (Response.Error resp) "") as [He|He].
    + left. by rewrite (retryLoop_success _ _ _ _ _ _ _ w1 resp).
    + rewrite (retryLoop_failure _ _ _ _ _ _ _ w1 resp) by done. apply IH.
      destruct (handleResponse_shape request req None w) as [H|H];
        rewrite Hh in H; simpl in H; done.
Qed.

Lemma executeRequest_shape method request (w : World T) :
  Response.Error (executeRequest method request w).1 ≠ "" →
  error_shaped (executeRequest method request w).1.
Proof.
  unfold executeRequest, bind, get_self, ret.
  destruct (negb (IsValid (self w))); [done |].
  destruct (blank (RequestOptions.Url request)); [done |].
  destruct (buildURL _ _) as [parsedUrl|e]; [|done].
  destruct (formatBody _ _ w) as [[[bodyReader contentType]|e] w1]; [|done].
  destruct (http_NewRequest method parsedUrl bodyReader) as [req|e]; [|done].
  intros He. unfold executeWithRetry, bind, get_self in *.
  destruct (retryLoop_shape
              (Z.to_nat (effectiveRetries (from_option MaxRetries 0 (self w1)))) 0
              (effectiveRetries (from_option MaxRetries 0 (self w1)))
              (RequestOptions.set_Headers request
                 (updateContentType (RequestOptions.Headers request) contentType))
              req Response.zero w1) as [H|H]; done.
Qed.

(** C4. A response of a public request method that carries an error has
    status code 0 and no body. *)
Theorem public_request_error_shape
    (op : RequestOptions.t → M T Response.t) (request : RequestOptions.t) (w : World T) :
  op ∈ [Get; Post; Put; Delete; Patch; Head; Options] →
  Response.Error (op request w).1 ≠ "" →
  Response.StatusCode (op request w).1 = 0 ∧ Response.Body (op request w).1 = None.
Proof.
  intros Hop He. set_unfold in Hop.
  destruct Hop as [->|[->|[->|[->|[->|[->|[->|[]]]]]]]]; by apply executeRequest_shape.
Qed.

End RetryTheorems.

(** ** Body encoding *)

Lemma length_hex (buf : list ascii) : String.length (hex buf) = (2 * length buf)%nat.
Proof. induction buf as [|c buf IH]; [done |]. simpl. rewrite IH. lia. Qed.

Lemma N_of_lowerhex (n : N) :
  (n < 16)%N → N_of_ascii (lowerhex n) = if (n <? 10)%N then (48 + n)%N else (87 + n)%N.
Proof.
  intros Hn. unfold lowerhex.
  destruct (N.ltb_spec n 10); apply N_ascii_embedding; lia.
Qed.

Lemma lowerhex_inj (n m : N) : (n < 16)%N → (m < 16)%N → lowerhex n = lowerhex m → n = m.
Proof.
  intros Hn Hm Heq. apply (f_equal N_of_ascii) in Heq.
  rewrite !N_of_lowerhex in Heq by done.
  destruct (N.ltb_spec n 10), (N.ltb_spec m 10); lia.
Qed.

(** Distinct bytes render as distinct digits. *)
Lemma hex_inj (a b : list ascii) : hex a = hex b → a = b.
Proof.
  revert b. induction a as [|x a IH]; intros [|y b]; simpl; try done.
  intros [= Hhi Hlo Hrest]. f_equal; [|by apply IH].
  pose proof (N_ascii_bounded x) as Hx. pose proof (N_ascii_bounded y) as Hy.
  apply lowerhex_inj in Hhi; [| apply N.Div0.div_lt_upper_bound; lia..].
  apply lowerhex_inj in Hlo; [| apply N.mod_lt; lia..].
  rewrite <-(ascii_N_embedding x), <-(ascii_N_embedding y). f_equal.
  rewrite (N.div_mod' (N_of_ascii x) 16), (N.div_mod' (N_of_ascii y) 16). lia.
Qed.

Lemma is_ascii_ToLowerASCII (s : string) : is_ascii (ToLowerASCII s) = true → is_ascii s = true.
Proof.
  unfold is_ascii. induction s as [|c s IH]; [done |].
  simpl. intros [Hc Hs]%andb_true_iff. rewrite IH by done.
  rewrite andb_true_r. revert Hc. clear. each_byte c; done.
Qed.

Section FormatBody.
Context `{Lib : GoLib} {T : Type}.

Lemma range_singleton {V} (k : string) (v : V) : range ({[ k := v ]} : gmap string V) = [(k, v)].
Proof. apply Permutation_singleton_r. by rewrite range_perm, map_to_list_singleton. Qed.

(** Detection on a header map that declares just the content type [ct],
    for a lower-case ASCII [ct] without surrounding white space. *)
Lemma resolveContentType_declared (ct : string) (body : Any) :
  is_ascii ct = true → ToLowerASCII (TrimSpace ct) = ct → ct ≠ "" →
  resolveContentType (Some {[ "content-type" := ct ]}) body = ct.
Proof.
  intros Hascii Hlow Hne. unfold resolveContentType.
  rewrite range_singleton. simpl.
  rewrite (ToLower_ascii "content-type") by done. simpl.
  assert (is_ascii (TrimSpace ct) = true) as Htrim.
  { apply is_ascii_ToLowerASCII. by rewrite Hlow. }
  rewrite ToLower_ascii, Hlow by done.
  apply String.eqb_neq in Hne. by rewrite Hne.
Qed.

Lemma formatMultipartFormData_ok (body : Any) (w w' : World T) reader ct :
  formatMultipartFormData body w = (Ok (reader, ct), w') →
  ct = FormDataContentType (hex (entropy w <$> seq 0 30)).
Proof.
  unfold formatMultipartFormData. destruct body as [| |m|]; try done.
  unfold bind, randomBoundary, rand_Read, ret. simpl.
  destruct (writeFields _ _ _) as [buf|e]; [|done].
  destruct (multipart_Close _ _) as [buf'|e]; [|done].
  by intros [= _ <- _].
Qed.

(** The world after a multipart body has been formatted: thirty bytes
    of the random source are used up. *)
Lemma formatMultipartFormData_entropy (body : Any) (w w' : World T) reader ct :
  formatMultipartFormData body w = (Ok (reader, ct), w') →
  ∀ i, entropy w' i = entropy w (30 + i)%nat.
Proof.
  unfold formatMultipartFormData. destruct body as [| |m|]; try done.
  unfold bind, randomBoundary, rand_Read, ret. simpl.
  destruct (writeFields _ _ _) as [buf|e]; [|done].
  destruct (multipart_Close _ _) as [buf'|e]; [|done].
  by intros [= _ _ <-].
Qed.

Lemma formatBody_multipart (headers : option (gmap string string)) (body : Any)
    (w w' : World T) reader ct :
  formatBody headers body w = (Ok (reader, ct), w') →
  encoderFor headers body = Some Multipart →
  formatMultipartFormData body w = (Ok (reader, ct), w').
Proof.
  unfold formatBody, encoderFor.
  destruct body as [|b|m|n]; [done | | |].
  all: by destruct (selectEncoder (resolveContentType headers _)).
Qed.

(** C8. When [formatBody] succeeds, detection run on a header map that
    declares the content type it produced, with the same body, takes the
    branch that produced it, for the JSON, form and plain-text encoders
    (and for a nil body, which takes none). On the multipart branch the
    content type produced is [multipart/form-data; boundary=] followed by
    a boundary of sixty hexadecimal digits, generated during the call:
    it renders the next thirty bytes of the random source, which the call
    uses up, so that the next multipart body gets the thirty bytes after
    them, and the same boundary again only if the random source repeats
    itself. *)
Theorem formatBody_content_type_roundtrip (headers : option (gmap string string))
    (body : Any) (w w' : World T) (reader : option string) (ct : string) :
  formatBody headers body w = (Ok (reader, ct), w') →
  (encoderFor headers body ≠ Some Multipart →
   encoderFor (Some {[ "content-type" := ct ]}) body = encoderFor headers body)
  ∧ (encoderFor headers body = Some Multipart →
     ∃ boundary,
       ct = "multipart/form-data; boundary=" +:+ boundary
       ∧ boundary = hex (entropy w <$> seq 0 30)
       ∧ String.length boundary = 60%nat
       ∧ (∀ i, entropy w' i = entropy w (30 + i)%nat)
       ∧ ∀ headers2 body2 reader2 ct2 (w2 : World T),
           formatBody headers2 body2 w' = (Ok (reader2, ct2), w2) →
           encoderFor headers2 body2 = Some Multipart →
           ∃ boundary2,
             ct2 = "multipart/form-data; boundary=" +:+ boundary2
             ∧ boundary2 = hex (entropy w <$> seq 30 30)
             ∧ (boundary2 = boundary
                ↔ entropy w <$> seq 30 30 = entropy w <$> seq 0 30)).
Proof.
  intros Hfmt.
  assert (∀ c, c ∈ ["application/x-www-form-urlencoded"; "text/plain"; "application/json"] →
               resolveContentType (Some {[ "content-type" := c ]}) body = c) as Hdecl.
  { intros c Hc. set_unfold in Hc.
    destruct Hc as [->|[->|[->|[]]]]; by apply resolveContentType_declared. }
  split.
  - unfold formatBody, encoderFor in *.
    destruct body as [|b|m|n]; [done | | |].
    all: destruct (selectEncoder (resolveContentType headers _)) eqn:Henc.
    all: intros Hne; try done.
    all: unfold ret, formatFormURLEncoded, formatTextPlain, formatJSON in Hfmt.
    all: try (destruct (json_Marshal _); [|done]).
    all: injection Hfmt as _ <- _; rewrite Hdecl by set_solver; done.
  - intros Hm. apply formatBody_multipart in Hfmt; [|done].
    pose proof (formatMultipartFormData_entropy _ _ _ _ _ Hfmt) as Hused.
    apply formatMultipartFormData_ok in Hfmt.
    eexists. split_and!; [done | done | | done |].
    { by rewrite length_hex, length_fmap, length_seq. }
    intros headers2 body2 reader2 ct2 w2 Hfmt2 Hm2.
    apply formatBody_multipart in Hfmt2; [|done].
    apply formatMultipartFormData_ok in Hfmt2.
    assert (entropy w' <$> seq 0 30 = entropy w <$> seq 30 30) as Hnext.
    { change (seq 30 30) with (seq (30 + 0) 30).
      rewrite <-(fmap_add_seq 30 0 30), <-list_fmap_compose.
      apply list_fmap_ext. intros _ i _. apply Hused. }
    rewrite Hnext in Hfmt2. eexists. split_and!; [done | done |].
    split; [apply hex_inj | by intros ->].
Qed.

End FormatBody.

(** ** Session life cycle *)

Section Lifecycle.
Context `{Lib : GoLib} {T : Type} `{Tr : !Transport T}.

Lemma IsValid_false (s : option (Session T)) :
  IsValid s = false → s = None ∨ ∃ s', s = Some s' ∧ Client s' = None.
Proof.
  destruct s as [s|]; [|by left]. simpl. intros H. right. exists s. split; [done |].
  destruct (Client s); [|done]. by rewrite bool_decide_eq_true_2 in H.
Qed.

Lemma Close_invalidates (w w' : World T) : Close w = (None, w') → IsValid (self w') = false.
Proof.
  unfold Close, bind, get_self, ret.
  destruct (IsValid (self w)) eqn:Hv; simpl; [|by intros [= <-]].
  unfold ClearCookies, with_client, bind, get_self, emit, set_self, ret. simpl.
  destruct (self w) as [s|]; [|done].
  destruct (Client s) as [c|]; [|done]. simpl.
  destruct NewCookieJar as [jar|]; [|done]. simpl.
  by intros [= <-].
Qed.

(** On a usable session [Close] clears the cookies through a fresh jar
    and releases the client; it fails only when no jar can be made. *)
Lemma Close_valid (s : Session T) (c : T) (jar : Jar) (w : World T) :
  self w = Some s → Client s = Some c → NewCookieJar = Some jar →
  Close w
  = (None,
     {| self := Some (set_Client s None);
        trace := (trace w ++ [EvNewCookieJar]) ++ [EvSetCookieJar];
        entropy := entropy w |}).
Proof.
  intros Hs Hc Hjar.
  unfold Close, ClearCookies, with_client, bind, get_self, emit, set_self, ret.
  destruct w as [sw tw ew]. simpl in *. subst sw. simpl.
  rewrite Hc, Hjar. simpl. rewrite Hc. done.
Qed.

(** C9. Once [Close] has returned without error, every later call of a
    request method, of a cookie or proxy setter, of [ClearCookies] or of
    [GetCookies] reports that the session is nil, [GetCookie] returns nil,
    and none of them calls the transport or changes anything: the world
    after the call is the world before it. *)
Theorem closed_session_fails_fast (w w1 : World T) :
  Close w = (None, w1) →
  ∀ w2 : World T, self w2 = self w1 →
    Forall (λ op : RequestOptions.t → M T Response.t,
              ∀ request, op request w2 = (emptyResponse "session or client is nil", w2))
           [Get; Post; Put; Delete; Patch; Head; Options]
    ∧ (∀ name value targetURL,
         SetCookies name value targetURL w2 = (Some "session or client is nil", w2))
    ∧ (∀ cookie targetURL,
         SetCookiesWithOptions cookie targetURL w2 = (Some "session or client is nil", w2))
    ∧ (∀ proxy, SetProxy proxy w2 = (Some "session or client is nil", w2))
    ∧ ClearCookies w2 = (Some "session or client is nil", w2)
    ∧ (∀ targetURL, GetCookies targetURL w2 = (Fail "session or client is nil", w2))
    ∧ (∀ name targetURL, GetCookie name targetURL w2 = (None, w2)).
Proof.
  intros Hclose w2 Hself. apply Close_invalidates in Hclose. rewrite <-Hself in Hclose.
  assert (∀ method request,
            executeRequest method request w2
            = (emptyResponse "session or client is nil", w2)) as Hreq.
  { intros method request. unfold executeRequest, bind, get_self, ret. by rewrite Hclose. }
  split; [repeat constructor; intros request; apply Hreq |].
  unfold SetCookies, SetCookiesWithOptions, SetProxy, ClearCookies, GetCookies, GetCookie,
    bind, get_self, ret.
  apply IsValid_false in Hclose as [->|(s & -> & ->)]; done.
Qed.

(** C10. On a session that is nil or whose client is nil, [Close]
    returns nil and leaves the world as it is. *)
Theorem Close_idempotent (w : World T) : IsValid (self w) = false → Close w = (None, w).
Proof. intros Hv. unfold Close, bind, get_self, ret. by rewrite Hv. Qed.

End Lifecycle.

(** ** Runs on the reference platform *)

Section Runs.
Import Run.
#[local] Existing Instance refLib.

(** C1, counterexample: with a budget of three and a transport that
    always fails with ["boom"], [Get] returns the message of
    [handleResponse] inside the wrapper, not the bare ["boom"]. *)
Lemma Get_boom_error_is_prefixed :
  Response.Error (Get (Tr := Ref.transport Ref.boom) plainGet w3).1
  = "max retries (3) exceeded: Request error: boom"
  ∧ Response.Error (Get (Tr := Ref.transport Ref.boom) plainGet w3).1
    ≠ "max retries (3) exceeded: boom".
Proof. split; [reflexivity | by vm_compute]. Qed.

Lemma executeWithRetry_boom_witness :
  (executeWithRetry (Tr := Ref.transport Ref.boom) plainGet httpRequest w3).1
  = emptyResponse "max retries (3) exceeded: Request error: boom"
  ∧ count_Do (trace (executeWithRetry (Tr := Ref.transport Ref.boom)
                       plainGet httpRequest w3).2)
    = (count_Do (trace w3) + 3)%nat.
Proof.
  apply (executeWithRetry_boom (Tr := Ref.transport Ref.boom)
           (Ref.session 3) 0%nat plainGet httpRequest ∅ w3);
    [reflexivity | reflexivity | reflexivity | reflexivity | intros; reflexivity].
Defined.

(** C2, counterexample: for a header map with an empty key and a budget
    of three, [Get] makes no request, but it sleeps twice and returns the
    failure wrapped in the max-retries message. *)
Lemma Get_blank_header_key_is_retried :
  count_Do (trace (Get (Tr := Ref.transport Ref.boom) blankKeyGet w3).2) = 0%nat
  ∧ count_Sleep (trace (Get (Tr := Ref.transport Ref.boom) blankKeyGet w3).2) = 2%nat
  ∧ Response.Error (Get (Tr := Ref.transport Ref.boom) blankKeyGet w3).1
    = "max retries (3) exceeded: Error formatting headers: header key cannot be empty".
Proof. split_and!; reflexivity. Qed.

Lemma executeWithRetry_blank_header_key_witness :
  executeWithRetry (Tr := Ref.transport Ref.boom) blankKeyGet httpRequest w3
  = (emptyResponse
       ("max retries (" +:+ Itoa 3
          +:+ ") exceeded: Error formatting headers: header key cannot be empty"),
     add_trace w3 (sleeps 0 (Z.to_nat 3 - 1)))
  ∧ count_Do (sleeps 0 (Z.to_nat 3 - 1)) = 0%nat
  ∧ count_Sleep (sleeps 0 (Z.to_nat 3 - 1)) = (Z.to_nat 3 - 1)%nat.
Proof.
  apply (executeWithRetry_blank_header_key (Tr := Ref.transport Ref.boom)
           (Ref.session 3) 0%nat blankKeyGet httpRequest
           {[ "" := "v"; "Accept" := "*/*" ]} "" w3);
    [reflexivity | reflexivity | reflexivity | exists "v"; reflexivity | reflexivity].
Defined.

Lemma executeWithRetry_succeeds_after_failures_witness :
  (∃ reqs r resp body,
     length reqs = 2%nat
     ∧ Forall (λ r', ∃ hs, r' = Request.set_Header httpRequest hs) (reqs ++ [r])
     ∧ trace (executeWithRetry (Tr := Ref.transport Ref.shaky) plainGet httpRequest w3).2
       = trace w3 ++ attempts (effectiveRetries (MaxRetries (Ref.session 3))) 0 reqs
                  ++ [EvDo r]
     ∧ (client_Do (Transport := Ref.transport Ref.shaky)
          (client_through (Tr := Ref.transport Ref.shaky) 0%nat reqs) r).1 = Ok resp
     ∧ HttpResponse.ReadAll resp = Ok body
     ∧ Response.Error
         (executeWithRetry (Tr := Ref.transport Ref.shaky) plainGet httpRequest w3).1 = ""
     ∧ Response.StatusCode
         (executeWithRetry (Tr := Ref.transport Ref.shaky) plainGet httpRequest w3).1
       = HttpResponse.StatusCode resp
     ∧ Response.Body
         (executeWithRetry (Tr := Ref.transport Ref.shaky) plainGet httpRequest w3).1
       = Some body
     ∧ Response.Headers
         (executeWithRetry (Tr := Ref.transport Ref.shaky) plainGet httpRequest w3).1
       = HttpResponse.Header resp
     ∧ Response.Cookies
         (executeWithRetry (Tr := Ref.transport Ref.shaky) plainGet httpRequest w3).1
       = HttpResponse.Cookies resp
     ∧ Response.Url
         (executeWithRetry (Tr := Ref.transport Ref.shaky) plainGet httpRequest w3).1
       = Some (default (Request.URL httpRequest) (HttpResponse.Location resp)))
  ∧ count_Do (trace (executeWithRetry (Tr := Ref.transport Ref.shaky)
                       plainGet httpRequest w3).2)
    = (count_Do (trace w3) + (2 + 1))%nat
  ∧ (∀ request' req' (w' : World nat),
       Response.Error (executeWithRetry (Tr := Ref.transport Ref.shaky)
                         request' req' w').1 = "" →
       ∃ w0, handleResponse (Tr := Ref.transport Ref.shaky) request' req' None w0
             = executeWithRetry (Tr := Ref.transport Ref.shaky) request' req' w').
Proof.
  apply (executeWithRetry_succeeds_after_failures (Tr := Ref.transport Ref.shaky)
           2 (Ref.session 3) 0%nat plainGet httpRequest w3);
    [reflexivity | reflexivity | by vm_compute | reflexivity |].
  simpl. repeat (intros _; split); reflexivity.
Defined.

Lemma public_request_error_shape_witness :
  Response.StatusCode (Get (Tr := Ref.transport Ref.boom) plainGet w3).1 = 0
  ∧ Response.Body (Get (Tr := Ref.transport Ref.boom) plainGet w3).1 = None.
Proof.
  apply (public_request_error_shape (Tr := Ref.transport Ref.boom) Get plainGet w3);
    [constructor | by vm_compute].
Defined.

Lemma buildURL_query_union_witness :
  ∃ built u',
    buildURL "https://example.com/s?q=go" (Some {[ "q" := "a b"; " " := "dropped" ]})
    = Ok built
    ∧ url_Parse built = Ok u'
    ∧ pairs_of (Query u')
        ≡ₚ pairs_of (Query {| Scheme := "https"; Opaque := ""; Host := "";
                              Path := "https://example.com/s"; ForceQuery := false;
                              RawQuery := "q=go"; Fragment := "" |})
           ++ kept_params (map_to_list (default ∅ (Some {[ "q" := "a b";
                                                           " " := "dropped" ]}))).
Proof.
  apply (buildURL_query_union "https://example.com/s?q=go"); reflexivity.
Defined.

(** C6, counterexample: a value stored under the header-order key of the
    transport does not pass through, [formatHeaders] replaces it by the
    list of keys; and a map with a reserved name set to ["default"] has
    no output at all when another key is blank. *)
Lemma formatHeaders_overwrites_header_order_key :
  formatHeaders (Ref.session 3) (Some {[ "Header-Order:" := "x" ]})
  = Ok {[ "Header-Order:" := ["Header-Order:"] ]}
  ∧ ToLower "Header-Order:" ≠ "user-agent"
  ∧ ToLower "Header-Order:" ≠ "sec-ch-ua"
  ∧ ToLower "Header-Order:" ≠ "sec-ch-ua-platform"
  ∧ ({[ "Header-Order:" := ["Header-Order:"] ]} : Header) !! "Header-Order:" ≠ Some ["x"]
  ∧ formatHeaders (Ref.session 3) (Some {[ "User-Agent" := "default"; " " := "x" ]})
    = Fail "header key cannot be empty".
Proof.
  split_and!; [reflexivity | discriminate.. | by rewrite lookup_singleton_eq | reflexivity].
Qed.

Lemma formatHeaders_defaults_witness :
  (ToLower "User-Agent" = "user-agent" → "default" = "" ∨ "default" = "default" →
   formattedExample !! "User-Agent" = Some [UserAgent (Ref.session 3)])
  ∧ (ToLower "User-Agent" = "sec-ch-ua" → "default" = "" ∨ "default" = "default" →
     formattedExample !! "User-Agent" = Some [SecChUa (Ref.session 3)])
  ∧ (ToLower "User-Agent" = "sec-ch-ua-platform" →
     "default" = "" ∨ "default" = "default" →
     formattedExample !! "User-Agent" = Some [SecChUaPlatform (Ref.session 3)])
  ∧ ((ToLower "User-Agent" ≠ "user-agent" ∧ ToLower "User-Agent" ≠ "sec-ch-ua"
      ∧ ToLower "User-Agent" ≠ "sec-ch-ua-platform")
     ∨ ¬ ("default" = "" ∨ "default" = "default") →
     formattedExample !! "User-Agent" = Some ["default"]).
Proof.
  apply (formatHeaders_defaults (Ref.session 3)
           {[ "User-Agent" := "default"; "SEC-CH-UA" := ""; "Accept" := "*/*" ]}
           formattedExample "User-Agent" "default");
    [reflexivity | reflexivity | discriminate].
Defined.

(** C7, the code at its failing input: for the multipart request of
    the README, whose content type is declared under [Content-Type],
    the request handed to the transport still carries the declared value
    under that key, and the boundary-bearing value under a second key. *)
Theorem Post_multipart_keeps_declared_content_type :
  ∃ req,
    trace (Post (Tr := Ref.transport (Ref.flaky 0)) multipartPost w3).2 = [EvDo req]
    ∧ Request.Header req !! "Content-Type" = Some ["multipart/form-data"]
    ∧ Request.Header req !! "content-type"
      = Some ["multipart/form-data; boundary=" +:+ zeros]
    ∧ updateContentType (Some {[ "Content-Type" := "multipart/form-data" ]})
        ("multipart/form-data; boundary=" +:+ zeros)
      = Some {[ "Content-Type" := "multipart/form-data";
                "content-type" := "multipart/form-data; boundary=" +:+ zeros ]}.
Proof. eexists. split_and!; reflexivity. Qed.

Lemma formatBody_content_type_roundtrip_witness :
  ((encoderFor (Some {[ "Content-Type" := " Application/JSON; charset=utf-8 " ]})
      (AnyString "x") ≠ Some Multipart →
    encoderFor (Some {[ "content-type" := "application/json" ]}) (AnyString "x")
    = encoderFor (Some {[ "Content-Type" := " Application/JSON; charset=utf-8 " ]})
        (AnyString "x"))
   ∧ (encoderFor (Some {[ "Content-Type" := " Application/JSON; charset=utf-8 " ]})
        (AnyString "x") = Some Multipart →
      ∃ boundary,
        "application/json" = "multipart/form-data; boundary=" +:+ boundary
        ∧ boundary = hex (entropy w3 <$> seq 0 30)
        ∧ String.length boundary = 60%nat
        ∧ (∀ i, entropy w3 i = entropy w3 (30 + i)%nat)
        ∧ ∀ headers2 body2 reader2 ct2 (w2 : World nat),
            formatBody headers2 body2 w3 = (Ok (reader2, ct2), w2) →
            encoderFor headers2 body2 = Some Multipart →
            ∃ boundary2,
              ct2 = "multipart/form-data; boundary=" +:+ boundary2
              ∧ boundary2 = hex (entropy w3 <$> seq 30 30)
              ∧ (boundary2 = boundary
                 ↔ entropy w3 <$> seq 30 30 = entropy w3 <$> seq 0 30)))
  ∧ ((encoderFor multipartHeaders multipartBody ≠ Some Multipart →
      encoderFor (Some {[ "content-type" := "multipart/form-data; boundary=" +:+ counted ]})
        multipartBody
      = encoderFor multipartHeaders multipartBody)
     ∧ (encoderFor multipartHeaders multipartBody = Some Multipart →
        ∃ boundary,
          "multipart/form-data; boundary=" +:+ counted
          = "multipart/form-data; boundary=" +:+ boundary
          ∧ boundary = hex (entropy counting3 <$> seq 0 30)
          ∧ String.length boundary = 60%nat
          ∧ (∀ i, entropy (formatBody multipartHeaders multipartBody counting3).2 i
                  = entropy counting3 (30 + i)%nat)
          ∧ ∀ headers2 body2 reader2 ct2 (w2 : World nat),
              formatBody headers2 body2
                (formatBody multipartHeaders multipartBody counting3).2
              = (Ok (reader2, ct2), w2) →
              encoderFor headers2 body2 = Some Multipart →
              ∃ boundary2,
                ct2 = "multipart/form-data; boundary=" +:+ boundary2
                ∧ boundary2 = hex (entropy counting3 <$> seq 30 30)
                ∧ (boundary2 = boundary
                   ↔ entropy counting3 <$> seq 30 30 = entropy counting3 <$> seq 0 30))).
Proof.
  split.
  - apply (formatBody_content_type_roundtrip
             (Some {[ "Content-Type" := " Application/JSON; charset=utf-8 " ]})
             (AnyString "x") w3 w3 (Some (Ref.quote +:+ "x" +:+ Ref.quote))
             "application/json").
    reflexivity.
  - apply (formatBody_content_type_roundtrip multipartHeaders multipartBody counting3
             (formatBody multipartHeaders multipartBody counting3).2
             (Some multipartReader) ("multipart/form-data; boundary=" +:+ counted)).
    reflexivity.
Defined.

Lemma closed_session_fails_fast_witness :
  Forall (λ op : RequestOptions.t → M nat Response.t,
            ∀ request,
              op request (Close (Tr := Ref.transport Ref.boom) w3).2
              = (emptyResponse "session or client is nil",
                 (Close (Tr := Ref.transport Ref.boom) w3).2))
         [Get (Tr := Ref.transport Ref.boom); Post (Tr := Ref.transport Ref.boom);
          Put (Tr := Ref.transport Ref.boom); Delete (Tr := Ref.transport Ref.boom);
          Patch (Tr := Ref.transport Ref.boom); Head (Tr := Ref.transport Ref.boom);
          Options (Tr := Ref.transport Ref.boom)]
  ∧ (∀ name value targetURL,
       SetCookies (Tr := Ref.transport Ref.boom) name value targetURL
         (Close (Tr := Ref.transport Ref.boom) w3).2
       = (Some "session or client is nil", (Close (Tr := Ref.transport Ref.boom) w3).2))
  ∧ (∀ cookie targetURL,
       SetCookiesWithOptions (Tr := Ref.transport Ref.boom) cookie targetURL
         (Close (Tr := Ref.transport Ref.boom) w3).2
       = (Some "session or client is nil", (Close (Tr := Ref.transport Ref.boom) w3).2))
  ∧ (∀ proxy,
       SetProxy (Tr := Ref.transport Ref.boom) proxy
         (Close (Tr := Ref.transport Ref.boom) w3).2
       = (Some "session or client is nil", (Close (Tr := Ref.transport Ref.boom) w3).2))
  ∧ ClearCookies (Tr := Ref.transport Ref.boom) (Close (Tr := Ref.transport Ref.boom) w3).2
    = (Some "session or client is nil", (Close (Tr := Ref.transport Ref.boom) w3).2)
  ∧ (∀ targetURL,
       GetCookies (Tr := Ref.transport Ref.boom) targetURL
         (Close (Tr := Ref.transport Ref.boom) w3).2
       = (Fail "session or client is nil", (Close (Tr := Ref.transport Ref.boom) w3).2))
  ∧ (∀ name targetURL,
       GetCookie (Tr := Ref.transport Ref.boom) name targetURL
         (Close (Tr := Ref.transport Ref.boom) w3).2
       = (None, (Close (Tr := Ref.transport Ref.boom) w3).2)).
Proof.
  apply (closed_session_fails_fast (Tr := Ref.transport Ref.boom) w3
           (Close (Tr := Ref.transport Ref.boom) w3).2);
    reflexivity.
Defined.

Lemma Close_idempotent_witness :
  Close (Tr := Ref.transport Ref.boom) (Ref.world None) = (None, Ref.world None).
Proof. apply (Close_idempotent (Tr := Ref.transport Ref.boom) (Ref.world None)). reflexivity. Defined.

End Runs.

(** * Further properties of the helpers *)

(** ** [SanitizeHeaders] and [formatHeaders] *)

Section Sanitize.
Context `{Lib : GoLib} {T : Type}.

(** The step of the loop of [SanitizeHeaders]. *)
Definition keep_entry (sanitized : gmap string string) (kv : string * string)
    : gmap string string :=
  if negb (blank kv.1) then <[kv.1 := kv.2]> sanitized else sanitized.

Lemma foldl_keep_notin entries sanitized (k : string) :
  k ∉ entries.*1 → foldl keep_entry sanitized entries !! k = sanitized !! k.
Proof.
  revert sanitized. induction entries as [|[k' v'] l IH]; intros sanitized Hk; [done |].
  rewrite fmap_cons, not_elem_of_cons in Hk. destruct Hk as [Hne Hk].
  simpl. rewrite IH by done. unfold keep_entry. simpl.
  destruct (blank k'); simpl; [done |]. by rewrite lookup_insert_ne.
Qed.

Lemma foldl_keep_lookup entries sanitized (k v : string) :
  NoDup entries.*1 → (k, v) ∈ entries →
  foldl keep_entry sanitized entries !! k
  = if blank k then sanitized !! k else Some v.
Proof.
  revert sanitized. induction entries as [|[k' v'] l IH]; intros sanitized Hnd Hin.
  - by apply elem_of_nil in Hin.
  - rewrite fmap_cons in Hnd. apply NoDup_cons in Hnd as [Hk' Hnd].
    apply elem_of_cons in Hin as [[= -> ->]|Hin]; simpl.
    + rewrite foldl_keep_notin by done. unfold keep_entry. simpl.
      destruct (blank k'); simpl; [done |]. by rewrite lookup_insert_eq.
    + rewrite IH by done. destruct (blank k) eqn:Hb; [|done].
      unfold keep_entry. simpl. destruct (blank k') eqn:Hb'; simpl; [done |].
      rewrite lookup_insert_ne; [done |]. intros ->. congruence.
Qed.

Lemma SanitizeHeaders_entry (headers : option (gmap string string)) (k : string) :
  SanitizeHeaders headers !! k
  = if blank k then None else default ∅ headers !! k.
Proof.
  destruct headers as [h|]; simpl; [|by destruct (blank k)].
  fold keep_entry.
  destruct (h !! k) as [v|] eqn:Hk.
  - rewrite (foldl_keep_lookup _ _ k v); [by destruct (blank k) | |].
    + rewrite range_perm. apply NoDup_fst_map_to_list.
    + rewrite range_perm. by apply elem_of_map_to_list.
  - rewrite foldl_keep_notin; [by destruct (blank k) |].
    rewrite range_perm. intros Hin. apply list_elem_of_fmap in Hin as ([k' v'] & -> & Hin).
    apply elem_of_map_to_list in Hin. simpl in *. congruence.
Qed.

(** X1. [SanitizeHeaders] returns exactly the entries of its argument
    whose key is not blank: a blank key is never present in the result,
    every other key keeps its value, and a nil map gives the empty map.
    Sanitizing a second time changes nothing. *)
Theorem SanitizeHeaders_lookup (headers : option (gmap string string)) (k : string) :
  SanitizeHeaders headers !! k
  = (if blank k then None else default ∅ headers !! k)
  ∧ SanitizeHeaders (Some (SanitizeHeaders headers)) = SanitizeHeaders headers.
Proof.
  split; [apply SanitizeHeaders_entry |].
  apply map_eq. intros k'. rewrite (SanitizeHeaders_entry (Some _)). simpl.
  rewrite SanitizeHeaders_entry. by destruct (blank k').
Qed.

(** X2. Sanitizing first makes [formatHeaders] total: on the result of
    [SanitizeHeaders] it always succeeds, and every entry of the original
    map with a non-blank key other than the header-order key is output
    with the value [formatHeaders] gives it. *)
Theorem formatHeaders_SanitizeHeaders (s : Session T)
    (headers : option (gmap string string)) :
  ∃ out,
    formatHeaders s (Some (SanitizeHeaders headers)) = Ok out
    ∧ ∀ k v, default ∅ headers !! k = Some v → blank k = false → k ≠ HeaderOrderKey →
             out !! k = Some [applyDefault s (ToLower k) v].
Proof.
  destruct (formatHeaders_cases s (Some (SanitizeHeaders headers))) as [Hfail|[out Hok]].
  - exfalso. unfold formatHeaders in Hfail.
    rewrite formatHeaders_loop_ok in Hfail; [done |].
    apply Forall_forall. intros [k v] Hin. apply elem_of_range in Hin.
    rewrite SanitizeHeaders_entry in Hin. simpl. by destruct (blank k).
  - exists out. split; [done |]. intros k v Hk Hb Hne.
    apply (formatHeaders_lookup s (SanitizeHeaders headers)); [done | | done].
    by rewrite SanitizeHeaders_entry, Hb.
Qed.

(** X3. [formatHeaders] fails exactly when the map holds a blank key, and
    then always with the same message; a nil map never fails. *)
Theorem formatHeaders_fails_iff (s : Session T) (headers : option (gmap string string))
    (e : string) :
  formatHeaders s headers = Fail e
  ↔ e = "header key cannot be empty"
    ∧ ∃ h k, headers = Some h ∧ is_Some (h !! k) ∧ blank k = true.
Proof.
  split.
  - intros Hfail. destruct headers as [h|]; [|done].
    destruct (formatHeaders_cases s (Some h)) as [H|[out H]]; [|congruence].
    split; [congruence |]. exists h.
    destruct (Exists_dec (λ kv : string * string, blank kv.1 = true) (range h)) as [Hex|Hnex].
    + apply Exists_exists in Hex as ([k v] & Hin & Hb). exists k.
      apply elem_of_range in Hin. eauto.
    + exfalso. unfold formatHeaders in H. rewrite formatHeaders_loop_ok in H; [done |].
      apply not_Exists_Forall in Hnex; [|intros; apply _].
      eapply Forall_impl; [apply Hnex |]. simpl. intros kv Hkv. by destruct (blank kv.1).
  - intros (-> & h & k & -> & Hk & Hb). by eapply formatHeaders_blank.
Qed.

(** X4. When [formatHeaders] succeeds on a map, the output holds the keys
    of the map with their original spelling plus the header-order key,
    and the header-order entry lists every key of the map exactly once. *)
Theorem formatHeaders_order (s : Session T) (h : gmap string string) (out : Header) :
  formatHeaders s (Some h) = Ok out →
  dom out = dom h ∪ {[ HeaderOrderKey ]}
  ∧ ∃ order, out !! HeaderOrderKey = Some order
             ∧ order ≡ₚ (map_to_list h).*1 ∧ NoDup order.
Proof.
  intros Hfmt.
  assert (∀ k, is_Some (h !! k) → blank k = false) as Hkeys.
  { intros k Hk. destruct (blank k) eqn:Hb; [|done].
    by rewrite (formatHeaders_blank s h k) in Hfmt. }
  rewrite formatHeaders_ok in Hfmt by done. injection Hfmt as <-. split.
  - apply set_eq. intros k. rewrite dom_insert_L, !elem_of_union, elem_of_singleton.
    rewrite !elem_of_dom. destruct (h !! k) as [v|] eqn:Hk.
    + rewrite (foldl_store_lookup s _ _ k v);
        [| apply range_NoDup | by apply elem_of_range]. split; eauto.
    + rewrite foldl_store_notin.
      * rewrite lookup_empty, <-!not_eq_None_Some. intuition congruence.
      * intros Hin. apply list_elem_of_fmap in Hin as ([k' v'] & -> & Hin).
        apply elem_of_range in Hin. simpl in *. congruence.
  - exists (range h).*1. rewrite lookup_insert_eq. split_and!; [done | |].
    + by rewrite range_perm.
    + apply range_NoDup.
Qed.

End Sanitize.

(** ** [buildURL], [ValidateURL] and the form encoder *)

Lemma foldl_add_notin (q : Values) entries (k : string) :
  k ∉ entries.*1 →
  foldl (λ q kv, if blank kv.1 then q else Values_Add q kv.1 kv.2) q entries !! k = q !! k.
Proof.
  revert q. induction entries as [|[k' v'] l IH]; intros q Hk; [done |].
  rewrite fmap_cons, not_elem_of_cons in Hk. destruct Hk as [Hne Hk].
  simpl. rewrite IH by done. destruct (blank k'); [done |].
  unfold Values_Add. by rewrite lookup_insert_ne.
Qed.

Lemma foldl_add_lookup (q : Values) entries (k v : string) :
  NoDup entries.*1 → (k, v) ∈ entries →
  foldl (λ q kv, if blank kv.1 then q else Values_Add q kv.1 kv.2) q entries !! k
  = if blank k then q !! k else Some (default [] (q !! k) ++ [v]).
Proof.
  revert q. induction entries as [|[k' v'] l IH]; intros q Hnd Hin.
  - by apply elem_of_nil in Hin.
  - rewrite fmap_cons in Hnd. apply NoDup_cons in Hnd as [Hk' Hnd].
    apply elem_of_cons in Hin as [[= -> ->]|Hin]; simpl.
    + rewrite foldl_add_notin by done. destruct (blank k'); [done |].
      unfold Values_Add. by rewrite lookup_insert_eq.
    + rewrite IH by done.
      assert (k ≠ k') as Hne.
      { intros ->. apply Hk'. by apply (list_elem_of_fmap_2 fst _ (k', v)). }
      destruct (blank k'); [done |]. unfold Values_Add. by rewrite lookup_insert_ne.
Qed.

(** The parameters may be added in any order. *)
Lemma foldl_add_permutation (q : Values) (l1 l2 : list (string * string)) :
  NoDup l1.*1 → l1 ≡ₚ l2 →
  foldl (λ q kv, if blank kv.1 then q else Values_Add q kv.1 kv.2) q l1
  = foldl (λ q kv, if blank kv.1 then q else Values_Add q kv.1 kv.2) q l2.
Proof.
  intros Hnd Hperm. apply map_eq. intros k.
  assert (NoDup l2.*1) as Hnd2 by by rewrite <-Hperm.
  destruct (decide (k ∈ l1.*1)) as [Hin|Hnin].
  - apply list_elem_of_fmap in Hin as ([k' v] & -> & Hin). simpl.
    rewrite (foldl_add_lookup q l1 k' v) by done.
    rewrite (foldl_add_lookup q l2 k' v); [done | done | by rewrite <-Hperm].
  - rewrite !foldl_add_notin; [done | by rewrite <-Hperm | done].
Qed.

Lemma sorted_keys_unique (l1 l2 : list string) :
  l1 ≡ₚ l2 → merge_sort String.le l1 = merge_sort String.le l2.
Proof.
  intros Hperm. apply (Sorted_unique String.le).
  - apply (Sorted_merge_sort String.le).
  - apply (Sorted_merge_sort String.le).
  - by rewrite !merge_sort_Permutation.
Qed.

(** X5. The output of [Values.Encode] does not depend on the order in
    which the runtime visits the map: any two libraries give the same
    string. *)
Theorem Values_Encode_order_independent (L1 L2 : GoLib) (v : Values) :
  Values_Encode (Lib := L1) v = Values_Encode (Lib := L2) v.
Proof.
  unfold Values_Encode. destruct (size v =? 0)%nat; [done |].
  rewrite (sorted_keys_unique (range (GoLib := L1) v).*1 (range (GoLib := L2) v).*1);
    [done |].
  by rewrite !range_perm.
Qed.

(** X6. [buildURL] fails only on its base URL: with the fixed message
    when it is blank, with the parser's message when it does not parse;
    no parameter map makes it fail. *)
Theorem buildURL_fails_iff `{Lib : GoLib} (baseURL : string)
    (params : option (gmap string string)) (e : string) :
  buildURL baseURL params = Fail e
  ↔ (blank baseURL = true ∧ e = "baseURL cannot be empty")
    ∨ (blank baseURL = false
       ∧ ∃ err, url_Parse baseURL = Fail err ∧ e = "error parsing URL: " +:+ err).
Proof.
  unfold buildURL. destruct (blank baseURL).
  { split; [intros [= <-]; by left | by intros [[_ ->]|[? _]]]. }
  destruct (url_Parse baseURL) as [u|err].
  - split.
    + destruct params as [p|]; [|done]. by destruct (size p =? 0)%nat.
    + by intros [[? _]|(_ & err & ? & _)].
  - split.
    + intros [= <-]. right. eauto.
    + by intros [[? _]|(_ & err' & [= <-] & ->)].
Qed.

(** X7. The URL built does not depend on the order in which the runtime
    visits the parameter map or the query values: two libraries with the
    same URL parser and printer build the same URL. *)
Theorem buildURL_order_independent (L1 L2 : GoLib) (baseURL : string)
    (params : option (gmap string string)) :
  (∀ s, url_Parse (GoLib := L1) s = url_Parse (GoLib := L2) s) →
  (∀ u, URL_String (GoLib := L1) u = URL_String (GoLib := L2) u) →
  buildURL (Lib := L1) baseURL params = buildURL (Lib := L2) baseURL params.
Proof.
  intros Hparse Hstring. unfold buildURL. rewrite Hparse.
  destruct (blank baseURL); [done |].
  destruct (url_Parse baseURL) as [u|err]; [|done].
  destruct params as [p|]; [|by rewrite Hstring].
  destruct (size p =? 0)%nat; [by rewrite Hstring |].
  rewrite Hstring. do 3 f_equal. unfold addParams.
  rewrite (foldl_add_permutation _ (range (GoLib := L1) p) (range (GoLib := L2) p)).
  - match goal with |- Values_Encode ?v = _ => generalize v end.
    intros v. unfold Values_Encode. destruct (size v =? 0)%nat; [done |].
    rewrite (sorted_keys_unique (range (GoLib := L1) v).*1 (range (GoLib := L2) v).*1);
      [done |].
    by rewrite !range_perm.
  - rewrite range_perm. apply NoDup_fst_map_to_list.
  - by rewrite !range_perm.
Qed.

(** X8. A URL that [ValidateURL] accepts is one that [buildURL] accepts,
    with any parameters; and it parses to a URL with a scheme and a
    host. *)
Theorem ValidateURL_buildURL `{Lib : GoLib} (rawURL : string)
    (params : option (gmap string string)) :
  ValidateURL rawURL = None →
  (∃ built, buildURL rawURL params = Ok built)
  ∧ ∃ u, url_Parse rawURL = Ok u ∧ Scheme u ≠ "" ∧ Host u ≠ "".
Proof.
  unfold ValidateURL, buildURL. destruct (blank rawURL); [done |].
  destruct (url_Parse rawURL) as [u|err]; [|done].
  destruct (String.eqb_spec (Scheme u) ""); [done |].
  destruct (String.eqb_spec (Host u) ""); [done |]. intros _. split; [|by exists u].
  destruct params as [p|]; [|by eexists].
  destruct (size p =? 0)%nat; by eexists.
Qed.

Lemma foldl_set_notin entries (d : Values) (k : string) :
  k ∉ entries.*1 → foldl (λ d kv, Values_Set d kv.1 kv.2) d entries !! k = d !! k.
Proof.
  revert d. induction entries as [|[k' v'] l IH]; intros d Hk; [done |].
  rewrite fmap_cons, not_elem_of_cons in Hk. destruct Hk as [Hne Hk].
  simpl. rewrite IH by done. unfold Values_Set. by rewrite lookup_insert_ne.
Qed.

Lemma foldl_set_lookup entries (d : Values) (k v : string) :
  NoDup entries.*1 → (k, v) ∈ entries →
  foldl (λ d kv, Values_Set d kv.1 kv.2) d entries !! k = Some [v].
Proof.
  revert d. induction entries as [|[k' v'] l IH]; intros d Hnd Hin.
  - by apply elem_of_nil in Hin.
  - rewrite fmap_cons in Hnd. apply NoDup_cons in Hnd as [Hk' Hnd].
    apply elem_of_cons in Hin as [[= -> ->]|Hin]; simpl.
    + rewrite foldl_set_notin by done. unfold Values_Set. by rewrite lookup_insert_eq.
    + by apply IH.
Qed.

Lemma pairs_of_singletons (m : gmap string string) :
  pairs_of ((λ v, [v]) <$> m) = map_to_list m.
Proof.
  unfold pairs_of. rewrite map_to_list_fmap, list_fmap_bind.
  induction (map_to_list m) as [|[k v] l IH]; [done |]. csimpl. by rewrite IH.
Qed.

(** X9. A form body decodes back to the entries of the map: for every
    map, [formatFormURLEncoded] succeeds with the form content type, and
    parsing the body as a query gives, as a multiset, the entries of the
    map. *)
Theorem formatFormURLEncoded_roundtrip `{Lib : GoLib} (formData : gmap string string) :
  ∃ body,
    formatFormURLEncoded (AnyMap formData)
    = Ok (Some body, "application/x-www-form-urlencoded")
    ∧ parse_pairs body ≡ₚ map_to_list formData.
Proof.
  eexists. split; [reflexivity |].
  rewrite parse_pairs_Encode, sorted_pairs_perm.
  assert (foldl (λ d kv, Values_Set d kv.1 kv.2) ∅ (range formData)
          = (λ v, [v]) <$> formData) as ->; [|by rewrite pairs_of_singletons].
  apply map_eq. intros k. rewrite lookup_fmap.
  destruct (formData !! k) as [v|] eqn:Hk; simpl.
  - apply foldl_set_lookup; [apply range_NoDup | by apply elem_of_range].
  - rewrite foldl_set_notin; [done |].
    intros Hin. apply list_elem_of_fmap in Hin as ([k' v'] & -> & Hin).
    apply elem_of_range in Hin. simpl in *. congruence.
Qed.

(** ** What a request does to the world *)

(** The configuration of a session: everything but the client. *)
Definition config {T} (s : Session T) : string * string * string * Z :=
  (UserAgent s, SecChUa s, SecChUaPlatform s, MaxRetries s).

(** Two receivers with the same configuration and the same usability. *)
Definition same_session {T} (a b : option (Session T)) : Prop :=
  option_map config a = option_map config b ∧ IsValid a = IsValid b.

(** A world reached from another by calls only: the trace has grown by
    [events], the session is the same up to the state of its client. *)
Definition reached {T} (w w' : World T) (events : list Event) : Prop :=
  trace w' = trace w ++ events ∧ same_session (self w') (self w).

Lemma same_session_refl {T} (a : option (Session T)) : same_session a a.
Proof. done. Qed.

Lemma same_session_trans {T} (a b c : option (Session T)) :
  same_session a b → same_session b c → same_session a c.
Proof. intros [? ?] [? ?]. split; congruence. Qed.

Lemma reached_refl {T} (w : World T) : reached w w [].
Proof. split; [by rewrite app_nil_r | done]. Qed.

Lemma reached_trans {T} (w1 w2 w3 : World T) l1 l2 :
  reached w1 w2 l1 → reached w2 w3 l2 → reached w1 w3 (l1 ++ l2).
Proof.
  intros [Ht1 Hs1] [Ht2 Hs2]. split.
  - by rewrite Ht2, Ht1, (assoc_L (++)).
  - by eapply same_session_trans.
Qed.

Lemma backoff_small (attempt : Z) :
  0 ≤ attempt < 92233720368 → backoff attempt = 100000000 * (attempt + 1).
Proof.
  intros Ha. unfold backoff, wrap64.
  rewrite Z.mod_small by lia. lia.
Qed.

(** X10. The back-off before the next attempt is 100ms times the number
    of attempts made, in nanoseconds, as long as that product fits an
    [int64] (fewer than 92233720368 attempts): it is positive and grows
    by 100ms per attempt. At 92233720368 attempts the product wraps
    around to a negative duration. *)
Theorem backoff_is_linear (attempt : Z) :
  0 ≤ attempt < 92233720368 →
  backoff attempt = 100000000 * (attempt + 1)
  ∧ 0 < backoff attempt
  ∧ (attempt + 1 < 92233720368 → backoff (attempt + 1) = backoff attempt + 100000000)
  ∧ backoff 92233720368 < 0.
Proof.
  intros Ha. rewrite backoff_small by done. split_and!; [done | lia | | done].
  intros Hb. rewrite backoff_small by lia. lia.
Qed.

Section Effects.
Context `{Lib : GoLib} {T : Type} `{Tr : !Transport T}.

Lemma handleResponse_reached request req err (w : World T) :
  reached w (handleResponse request req err w).2 []
  ∨ ∃ r, reached w (handleResponse request req err w).2 [EvDo r].
Proof.
  unfold handleResponse, bind, get_self, emit, set_self, ret.
  destruct err as [e|]; [left; apply reached_refl |]. simpl.
  destruct (self w) as [s|] eqn:Hs; [|left; apply reached_refl].
  destruct (Client s) as [c|] eqn:Hc; [|left; apply reached_refl].
  destruct (formatHeaders s (RequestOptions.Headers request)) as [hs|e];
    [|left; apply reached_refl]. simpl.
  right. exists (Request.set_Header req hs).
  assert (same_session (Some (set_Client s (Some (client_Do c (Request.set_Header req hs)).2)))
            (Some s)) as Hsame.
  { split; simpl; [done |]. by rewrite Hc. }
  destruct (client_Do c (Request.set_Header req hs)) as [[resp|e] c']; simpl in *.
  - destruct (HttpResponse.ReadAll resp); simpl; (split; [done | by rewrite Hs]).
  - split; [done | by rewrite Hs].
Qed.

Lemma handleResponse_entropy request req err (w : World T) :
  entropy (handleResponse request req err w).2 = entropy w.
Proof.
  unfold handleResponse, bind, get_self, emit, set_self, ret.
  destruct err as [e|]; [done |]. simpl.
  destruct (self w) as [s|]; [|done].
  destruct (Client s) as [c|]; [|done].
  destruct (formatHeaders s (RequestOptions.Headers request)) as [hs|e]; [|done]. simpl.
  destruct (client_Do c (Request.set_Header req hs)) as [[resp|e] c']; simpl; [|done].
  by destruct (HttpResponse.ReadAll resp).
Qed.

(** The loop makes at most one request per turn and sleeps only between
    turns. *)
Lemma retryLoop_reached turns attempt maxRetries request req last (w : World T) :
  attempt + Z.of_nat turns = maxRetries →
  ∃ events,
    reached w (retryLoop turns attempt maxRetries request req last w).2 events
    ∧ (count_Do events ≤ turns)%nat
    ∧ (count_Sleep events ≤ turns - 1)%nat
    ∧ length events = (count_Do events + count_Sleep events)%nat.
Proof.
  revert attempt last w. induction turns as [|turns IH]; intros attempt last w Hm.
  - exists []. split; [apply reached_refl | repeat split; cbv; lia].
  - destruct (handleResponse request req None w) as [resp w1] eqn:Hh.
    assert (∃ l, reached w w1 l ∧ (count_Do l ≤ 1)%nat ∧ count_Sleep l = 0%nat
                 ∧ length l = count_Do l) as (l & Hl & HlDo & HlSleep & Hlen).
    { destruct (handleResponse_reached request req None w) as [H|[r H]];
        rewrite Hh in H; simpl in H; eexists; (split; [exact H |]);
        repeat split; cbv; lia. }
    destruct (String.eqb_spec (Response.Error resp) "") as [He|He].
    + rewrite (retryLoop_success _ _ _ _ _ _ _ w1 resp) by done. simpl.
      exists l. split_and!; [done | lia | lia | lia].
    + rewrite (retryLoop_failure _ _ _ _ _ _ _ w1 resp) by done.
      destruct (Z.ltb_spec attempt (maxRetries - 1)) as [Hlt|Hge].
      * destruct (IH (attempt + 1) resp (add_trace w1 [EvSleep (backoff attempt)]))
          as (l2 & Hl2 & HDo & HSleep & Hlen2); [lia |].
        exists (l ++ [EvSleep (backoff attempt)] ++ l2).
        assert (reached w1 (add_trace w1 [EvSleep (backoff attempt)])
                  [EvSleep (backoff attempt)]) as Hs by done.
        split; [eapply reached_trans; [done |]; by eapply reached_trans |].
        unfold count_Do, count_Sleep in *.
        rewrite !filter_app, !length_app. simpl.
        destruct turns; [lia |]. lia.
      * destruct (IH (attempt + 1) resp w1) as (l2 & Hl2 & HDo & HSleep & Hlen2); [lia |].
        exists (l ++ l2). split; [by eapply reached_trans |].
        unfold count_Do, count_Sleep in *.
        rewrite !filter_app, !length_app. lia.
Qed.

(** The loop ends with a success or with the max-retries message. *)
Lemma retryLoop_error turns attempt maxRetries request req last (w : World T) :
  Response.Error (retryLoop turns attempt maxRetries request req last w).1 = ""
  ∨ ∃ e, Response.Error (retryLoop turns attempt maxRetries request req last w).1
         = "max retries (" +:+ Itoa maxRetries +:+ ") exceeded: " +:+ e.
Proof.
  revert attempt last w. induction turns as [|turns IH]; intros attempt last w.
  - right. by eexists.
  - destruct (handleResponse request req None w) as [resp w1] eqn:Hh.
    destruct (String.eqb_spec (Response.Error resp) "") as [He|He].
    + left. by rewrite (retryLoop_success _ _ _ _ _ _ _ w1 resp).
    + rewrite (retryLoop_failure _ _ _ _ _ _ _ w1 resp) by done. apply IH.
Qed.

Lemma retryLoop_entropy turns attempt maxRetries request req last (w : World T) :
  entropy (retryLoop turns attempt maxRetries request req last w).2 = entropy w.
Proof.
  revert attempt last w. induction turns as [|turns IH]; intros attempt last w; [done |].
  destruct (handleResponse request req None w) as [resp w1] eqn:Hh.
  pose proof (handleResponse_entropy request req None w) as He1. rewrite Hh in He1.
  destruct (String.eqb_spec (Response.Error resp) "") as [He|He].
  - by rewrite (retryLoop_success _ _ _ _ _ _ _ w1 resp).
  - rewrite (retryLoop_failure _ _ _ _ _ _ _ w1 resp) by done. rewrite IH.
    by destruct (attempt <? maxRetries - 1).
Qed.

(** X11. The retry driver makes at most as many requests as the budget
    in effect (the configured one, or one when that is not positive) and
    at most one sleep fewer; it makes no other call, and leaves the
    configuration and the usability of the session as they were. *)
Theorem executeWithRetry_bounded (s : Session T) (request : RequestOptions.t)
    (req : Request.t) (w : World T) :
  self w = Some s →
  let n := Z.to_nat (effectiveRetries (MaxRetries s)) in
  ∃ events,
    reached w (executeWithRetry request req w).2 events
    ∧ (1 ≤ n)%nat
    ∧ (count_Do events ≤ n)%nat
    ∧ (count_Sleep events ≤ n - 1)%nat
    ∧ length events = (count_Do events + count_Sleep events)%nat.
Proof.
  intros Hs n. rewrite (executeWithRetry_unfold s) by done.
  pose proof (effectiveRetries_pos (MaxRetries s)) as Hpos.
  destruct (retryLoop_reached n 0 (effectiveRetries (MaxRetries s)) request req
              Response.zero w) as (events & H); [unfold n; lia |].
  exists events. split_and!; [apply H | unfold n; lia | apply H..].
Qed.

(** X12. A response of [executeRequest] that carries an error other than
    the max-retries message was produced before the retry driver ran: no
    request was sent, no sleep was made, and the session is untouched. *)
Theorem executeRequest_rejected_early (method : string) (request : RequestOptions.t)
    (w : World T) :
  Response.Error (executeRequest method request w).1 ≠ "" →
  (∀ n e, Response.Error (executeRequest method request w).1
          ≠ "max retries (" +:+ Itoa n +:+ ") exceeded: " +:+ e) →
  trace (executeRequest method request w).2 = trace w
  ∧ self (executeRequest method request w).2 = self w.
Proof.
  unfold executeRequest, bind, get_self, ret.
  destruct (negb (IsValid (self w))); [done |].
  destruct (blank (RequestOptions.Url request)); [done |].
  destruct (buildURL _ _) as [parsedUrl|e]; [|done].
  assert (trace (formatBody (RequestOptions.Headers request)
                   (RequestOptions.Body request) w).2 = trace w
          ∧ self (formatBody (RequestOptions.Headers request)
                    (RequestOptions.Body request) w).2 = self w) as Hbody.
  { unfold formatBody. destruct (RequestOptions.Body request); try done.
    all: destruct (selectEncoder _); try done.
    all: unfold formatMultipartFormData, bind, randomBoundary, rand_Read, ret; simpl.
    all: destruct (writeFields _ _ _); [|done]. all: by destruct (multipart_Close _ _). }
  destruct (formatBody _ _ w) as [[[bodyReader contentType]|e] w1]; [|done].
  destruct (http_NewRequest method parsedUrl bodyReader) as [req|e]; [|done].
  intros Hne Hmax. exfalso.
  unfold executeWithRetry, bind, get_self in *.
  destruct (retryLoop_error
              (Z.to_nat (effectiveRetries (from_option MaxRetries 0 (self w1)))) 0
              (effectiveRetries (from_option MaxRetries 0 (self w1)))
              (RequestOptions.set_Headers request
                 (updateContentType (RequestOptions.Headers request) contentType))
              req Response.zero w1) as [H|[e H]]; [done |].
  by eapply Hmax.
Qed.

End Effects.

Section Requests.
Context `{Lib : GoLib} {T : Type} `{Tr : !Transport T}.

Lemma formatBody_self headers body (w : World T) :
  trace (formatBody headers body w).2 = trace w
  ∧ self (formatBody headers body w).2 = self w.
Proof.
  unfold formatBody. destruct body; try done.
  all: destruct (selectEncoder _); try done.
  all: unfold formatMultipartFormData, bind, randomBoundary, rand_Read, ret; simpl.
  all: destruct (writeFields _ _ _); [|done]. all: by destruct (multipart_Close _ _).
Qed.

(** X13. [formatBody] makes no call and does not touch the session; it
    reads the random source only on the multipart branch with a map body
    (thirty bytes, for the boundary), and otherwise leaves the world as
    it is. *)
Theorem formatBody_effects (headers : option (gmap string string)) (body : Any)
    (w : World T) :
  trace (formatBody headers body w).2 = trace w
  ∧ self (formatBody headers body w).2 = self w
  ∧ (encoderFor headers body ≠ Some Multipart ∨ (∀ m, body ≠ AnyMap m) →
     (formatBody headers body w).2 = w)
  ∧ (encoderFor headers body = Some Multipart → (∃ m, body = AnyMap m) →
     ∀ i, entropy (formatBody headers body w).2 i = entropy w (30 + i)%nat).
Proof.
  split; [apply formatBody_self |]. split; [apply formatBody_self |].
  unfold formatBody, encoderFor. destruct body as [|b|m|n].
  - split; [done | by intros [=]].
  - destruct (selectEncoder _); (split; [done | by intros _ [m [=]]]).
  - destruct (selectEncoder _); split; try done.
    + intros [H|H]; [done | by destruct (H m)].
    + intros _ _ i.
      unfold formatMultipartFormData, bind, randomBoundary, rand_Read, ret. simpl.
      destruct (writeFields _ _ _); [|done]. by destruct (multipart_Close _ _).
  - destruct (selectEncoder _); (split; [done | by intros _ [m [=]]]).
Qed.

Lemma executeRequest_reached method request (w : World T) :
  ∃ events,
    reached w (executeRequest method request w).2 events
    ∧ (count_Do events
       ≤ Z.to_nat (effectiveRetries (from_option MaxRetries 0%Z (self w))))%nat
    ∧ (count_Sleep events
       ≤ Z.to_nat (effectiveRetries (from_option MaxRetries 0%Z (self w))) - 1)%nat
    ∧ length events = (count_Do events + count_Sleep events)%nat.
Proof.
  assert (∃ events : list Event,
            reached w w events ∧ (count_Do events ≤ Z.to_nat (effectiveRetries
                 (from_option MaxRetries 0%Z (self w))))%nat
            ∧ (count_Sleep events ≤ Z.to_nat (effectiveRetries
                 (from_option MaxRetries 0%Z (self w))) - 1)%nat
            ∧ length events = (count_Do events + count_Sleep events)%nat) as Hnone.
  { exists []. split; [apply reached_refl | repeat split; cbv; lia]. }
  unfold executeRequest, bind, get_self, ret.
  destruct (negb (IsValid (self w))); [done |].
  destruct (blank (RequestOptions.Url request)); [done |].
  destruct (buildURL _ _) as [parsedUrl|e]; [|done].
  pose proof (formatBody_self (RequestOptions.Headers request)
                (RequestOptions.Body request) w) as [Htr Hself].
  destruct (formatBody _ _ w) as [[[bodyReader contentType]|e] w1]; simpl in *.
  - destruct (http_NewRequest method parsedUrl bodyReader) as [req|e]; simpl.
    + unfold executeWithRetry, bind, get_self. rewrite <-Hself.
      destruct (retryLoop_reached
                  (Z.to_nat (effectiveRetries (from_option MaxRetries 0%Z (self w1)))) 0%Z
                  (effectiveRetries (from_option MaxRetries 0%Z (self w1)))
                  (RequestOptions.set_Headers request
                     (updateContentType (RequestOptions.Headers request) contentType))
                  req Response.zero w1) as (events & [Ht Hs] & Hbounds).
      { pose proof (effectiveRetries_pos (from_option MaxRetries 0%Z (self w1))). lia. }
      exists events. split; [|done]. split; [by rewrite Ht, Htr | by rewrite <-Hself].
    + destruct Hnone as (events & [Ht Hs] & Hb). exists events.
      split; [|done]. split; [by rewrite Htr | by rewrite Hself].
  - destruct Hnone as (events & [Ht Hs] & Hb). exists events.
    split; [|done]. split; [by rewrite Htr | by rewrite Hself].
Qed.

(** X14. A public request method never closes, opens or reconfigures the
    session, makes no call but requests and sleeps, and stays within the
    budget in effect: at most that many requests and one sleep fewer. *)
Theorem public_request_bounded
    (op : RequestOptions.t → M T Response.t) (request : RequestOptions.t) (w : World T) :
  op ∈ [Get; Post; Put; Delete; Patch; Head; Options] →
  let n := Z.to_nat (effectiveRetries (from_option MaxRetries 0%Z (self w))) in
  ∃ events,
    trace (op request w).2 = trace w ++ events
    ∧ same_session (self (op request w).2) (self w)
    ∧ (count_Do events ≤ n)%nat
    ∧ (count_Sleep events ≤ n - 1)%nat
    ∧ length events = (count_Do events + count_Sleep events)%nat.
Proof.
  intros Hop n. set_unfold in Hop.
  destruct Hop as [->|[->|[->|[->|[->|[->|[->|[]]]]]]]].
  1: destruct (executeRequest_reached "GET" request w) as (ev & [? ?] & ?).
  2: destruct (executeRequest_reached "POST" request w) as (ev & [? ?] & ?).
  3: destruct (executeRequest_reached "PUT" request w) as (ev & [? ?] & ?).
  4: destruct (executeRequest_reached "DELETE" request w) as (ev & [? ?] & ?).
  5: destruct (executeRequest_reached "PATCH" request w) as (ev & [? ?] & ?).
  6: destruct (executeRequest_reached "HEAD" request w) as (ev & [? ?] & ?).
  7: destruct (executeRequest_reached "OPTIONS" request w) as (ev & [? ?] & ?).
  all: by exists ev.
Qed.

Lemma count_Sleep_failed_attempts req hs maxRetries attempt (k : nat) :
  attempt + Z.of_nat k = maxRetries →
  count_Sleep (failed_attempts req hs maxRetries attempt k) = (k - 1)%nat.
Proof.
  revert attempt. induction k as [|k IH]; intros attempt Hm; [done |].
  rewrite failed_attempts_S. unfold count_Sleep in *.
  rewrite filter_cons. simpl. rewrite filter_app, length_app, IH by lia.
  destruct (Z.ltb_spec attempt (maxRetries - 1)); destruct k; simpl; try lia.
  all: by cbv.
Qed.

Lemma attemptResponse_failed (r : Request.t) (result : Err HttpResponse.t) :
  answered result = false → attemptResponse r result = emptyResponse (attemptError result).
Proof.
  destruct result as [resp|e]; simpl; [|done].
  by destruct (HttpResponse.ReadAll resp).
Qed.

(** X15. On a usable session whose headers hold no blank key, when the
    transport fails every attempt (the request fails or the body of the
    answer cannot be read), whatever the requests it is sent, the retry
    driver uses its whole budget [n] (one for a budget that is not
    positive): it sends [n] requests, each of them the request it was
    given with its headers replaced, sleeps after each but the last for
    the back-off of that attempt, and returns the failure of the last
    attempt wrapped in the max-retries message for [n]. *)
Theorem executeWithRetry_all_fail (s : Session T) (c : T) (request : RequestOptions.t)
    (req : Request.t) (w : World T) :
  self w = Some s → Client s = Some c →
  no_blank_key (RequestOptions.Headers request) = true →
  let n := effectiveRetries (MaxRetries s) in
  fails_next (Z.to_nat n) c →
  ∃ reqs r,
    length reqs = (Z.to_nat n - 1)%nat
    ∧ Forall (λ r', ∃ hs, r' = Request.set_Header req hs) (reqs ++ [r])
    ∧ trace (executeWithRetry request req w).2 = trace w ++ attempts n 0 (reqs ++ [r])
    ∧ count_Do (attempts n 0 (reqs ++ [r])) = Z.to_nat n
    ∧ count_Sleep (attempts n 0 (reqs ++ [r])) = (Z.to_nat n - 1)%nat
    ∧ (executeWithRetry request req w).1
      = emptyResponse ("max retries (" +:+ Itoa n +:+ ") exceeded: "
                         +:+ attemptError (client_Do (client_through c reqs) r).1).
Proof.
  intros Hs Hc Hkeys n Hfail.
  destruct (no_blank_key_formats s _ Hkeys) as [hs Hh].
  pose proof (effectiveRetries_pos (MaxRetries s)) as Hpos. fold n in Hpos.
  assert (executeWithRetry request req w
          = retryLoop 0 (0 + Z.of_nat (Z.to_nat n)) n request req
              (last_after req hs Response.zero c (Z.to_nat n))
              {| self := Some (set_Client s (Some (client_after c (sent req hs) (Z.to_nat n))));
                 trace := trace w ++ failed_attempts req hs n 0 (Z.to_nat n);
                 entropy := entropy w |}) as Hrun.
  { rewrite (executeWithRetry_unfold s) by done. fold n.
    rewrite <-(Nat.add_0_r (Z.to_nat n)) at 1.
    apply (retryLoop_failed_attempts s request req hs n Hh (Z.to_nat n) 0 0 _ w c).
    - by rewrite set_Client_id.
    - intros i Hi. rewrite attemptResponse_Error.
      apply attemptError_failed. by apply fails_next_answer with (Z.to_nat n). }
  exists (replicate (Z.to_nat n - 1) (sent req hs)), (sent req hs).
  rewrite replicate_snoc, client_through_replicate.
  replace (S (Z.to_nat n - 1)) with (Z.to_nat n) by lia.
  rewrite <-failed_attempts_attempts, Hrun. simpl. split_and!.
  - apply length_replicate.
  - apply Forall_replicate_sent.
  - done.
  - apply count_Do_failed_attempts.
  - apply count_Sleep_failed_attempts. lia.
  - destruct (Z.to_nat n) as [|k] eqn:Hk; [lia |]. simpl.
    replace (k - 0)%nat with k by lia.
    rewrite attemptResponse_failed by (apply (fails_next_answer (S k)); [done | lia]).
    by rewrite exhausted_empty.
Qed.

(** A response of [handleResponse] without error is built from the
    answer of the transport to the request it has just sent. *)
Lemma handleResponse_success request req err (w : World T) :
  Response.Error (handleResponse request req err w).1 = "" →
  ∃ s c hs resp body,
    self w = Some s ∧ Client s = Some c
    ∧ (client_Do c (Request.set_Header req hs)).1 = Ok resp
    ∧ HttpResponse.ReadAll resp = Ok body
    ∧ handleResponse request req err w
      = (successResponse (Request.set_Header req hs) resp body,
         {| self := Some (set_Client s (Some (client_Do c (Request.set_Header req hs)).2));
            trace := trace w ++ [EvDo (Request.set_Header req hs)];
            entropy := entropy w |}).
Proof.
  unfold handleResponse, bind, get_self, emit, set_self, ret.
  destruct err as [e|]; [done |]. simpl.
  destruct (self w) as [s|]; [|done].
  destruct (Client s) as [c|] eqn:Hc; [|done].
  destruct (formatHeaders s _) as [hs|e]; [|done]. simpl.
  destruct (client_Do c _) as [[resp|e] c'] eqn:Hdo; simpl; [|done].
  destruct (HttpResponse.ReadAll resp) as [body|e] eqn:Hbody; [|done].
  intros _. exists s, c, hs, resp, body. by rewrite Hdo.
Qed.

(** X16. A response of a public request method without error is the
    answer of the transport to the last request sent: the status code,
    the headers (nil when the transport left them nil) and the cookies
    are those of the answer, the body is what was read from it (possibly
    of length zero, never nil), and the URL is the location the answer
    names or else the URL of the request (never nil). *)
Theorem public_request_success_shape
    (op : RequestOptions.t → M T Response.t) (request : RequestOptions.t) (w : World T) :
  op ∈ [Get; Post; Put; Delete; Patch; Head; Options] →
  Response.Error (op request w).1 = "" →
  ∃ (c : T) (r : Request.t) (resp : HttpResponse.t) (body : string),
    (client_Do c r).1 = Ok resp
    ∧ HttpResponse.ReadAll resp = Ok body
    ∧ last (trace (op request w).2) = Some (EvDo r)
    ∧ self (op request w).2 ≫= Client = Some (client_Do c r).2
    ∧ Response.StatusCode (op request w).1 = HttpResponse.StatusCode resp
    ∧ Response.Body (op request w).1 = Some body
    ∧ Response.Headers (op request w).1 = HttpResponse.Header resp
    ∧ Response.Cookies (op request w).1 = HttpResponse.Cookies resp
    ∧ Response.Url (op request w).1
      = Some (default (Request.URL r) (HttpResponse.Location resp)).
Proof.
  assert (∀ method, Response.Error (executeRequest method request w).1 = "" →
            ∃ (c : T) (r : Request.t) (resp : HttpResponse.t) (body : string),
              (client_Do c r).1 = Ok resp
              ∧ HttpResponse.ReadAll resp = Ok body
              ∧ (executeRequest method request w).1 = successResponse r resp body
              ∧ last (trace (executeRequest method request w).2) = Some (EvDo r)
              ∧ self (executeRequest method request w).2 ≫= Client
                = Some (client_Do c r).2) as Hreq.
  { intros method. unfold executeRequest, bind, get_self, ret.
    destruct (negb (IsValid (self w))); [done |].
    destruct (blank (RequestOptions.Url request)); [done |].
    destruct (buildURL _ _) as [parsedUrl|e]; [|done].
    destruct (formatBody _ _ w) as [[[bodyReader contentType]|e] w1]; [|done].
    destruct (http_NewRequest method parsedUrl bodyReader) as [req|e]; [|done].
    intros He. unfold executeWithRetry, bind, get_self in *.
    apply retryLoop_success_exit in He as Hexit. destruct Hexit as [w0 Hw0].
    rewrite <-Hw0 in *.
    apply handleResponse_success in He
      as (s & c & hs & resp & body & _ & _ & Hdo & Hbody & ->).
    exists c, (Request.set_Header req hs), resp, body. simpl.
    split_and!; [done | done | done | by rewrite last_snoc | done]. }
  intros Hop He.
  assert (∃ method, op = executeRequest method) as [method ->].
  { set_unfold in Hop.
    destruct Hop as [->|[->|[->|[->|[->|[->|[->|[]]]]]]]]; by eexists. }
  destruct (Hreq method He) as (c & r & resp & body & Hdo & Hbody & Hrun & Hlast & Hself).
  exists c, r, resp, body. rewrite Hrun. by split_and!.
Qed.

End Requests.

(** ** Cookies, proxy and the session life cycle *)

Section Passthrough.
Context `{Lib : GoLib} {T : Type} `{Tr : !Transport T}.

Lemma omap_validCookie_elem (raw : list (option Cookie.t)) (ck : Cookie.t) :
  ck ∈ omap validCookie raw ↔ Some ck ∈ raw ∧ blank (Cookie.Name ck) = false.
Proof.
  rewrite list_elem_of_omap. split.
  - intros ([c|] & Hin & Hv); [|done]. simpl in Hv.
    destruct (blank (Cookie.Name c)) eqn:Hb; [done |]. by injection Hv as ->.
  - intros [Hin Hb]. exists (Some ck). split; [done |]. simpl. by rewrite Hb.
Qed.

Lemma omap_validCookie_sublist (raw : list (option Cookie.t)) :
  sublist (Some <$> omap validCookie raw) raw.
Proof.
  induction raw as [|[c|] raw IH]; [done | |].
  - csimpl. destruct (negb (blank (Cookie.Name c))); csimpl.
    + by apply sublist_skip.
    + by apply sublist_cons.
  - csimpl. by apply sublist_cons.
Qed.

(** X17. On a usable session [GetCookies] asks the transport once and
    returns, in the order the transport gave them, exactly the cookies
    that are not nil and whose name is not blank. *)
Theorem GetCookies_filtered (s : Session T) (c : T) (targetURL : option URL)
    (w : World T) :
  self w = Some s → Client s = Some c →
  ∃ cookies,
    (GetCookies targetURL w).1 = Ok cookies
    ∧ (∀ ck, ck ∈ cookies
             ↔ Some ck ∈ (client_GetCookies c targetURL).1
               ∧ blank (Cookie.Name ck) = false)
    ∧ sublist (Some <$> cookies) (client_GetCookies c targetURL).1
    ∧ trace (GetCookies targetURL w).2 = trace w ++ [EvGetCookies targetURL].
Proof.
  intros Hs Hc. unfold GetCookies, with_client, bind, get_self, emit, set_self, ret.
  rewrite Hs, Hc. destruct (client_GetCookies c targetURL) as [raw c'] eqn:Hraw. simpl.
  eexists. split_and!; [done | apply omap_validCookie_elem
                        | apply omap_validCookie_sublist | done].
Qed.

Lemma findCookie_Some name (raw : list (option Cookie.t)) ck :
  findCookie name raw = Some ck →
  Cookie.Name ck = name
  ∧ ∃ before after,
      raw = before ++ Some ck :: after
      ∧ ∀ ck', Some ck' ∈ before → Cookie.Name ck' ≠ name.
Proof.
  induction raw as [|[c|] raw IH]; [done | |]; simpl.
  - destruct (String.eqb_spec (Cookie.Name c) name) as [Heq|Hne].
    + intros [= ->]. split; [done |]. exists [], raw. split; [done |].
      intros ck' Hin. by apply elem_of_nil in Hin.
    + intros Hf. destruct (IH Hf) as (Hn & before & after & -> & Hbefore).
      split; [done |]. exists (Some c :: before), after. split; [done |].
      intros ck' [[= ->]|Hin]%elem_of_cons; [done | by apply Hbefore].
  - intros Hf. destruct (IH Hf) as (Hn & before & after & -> & Hbefore).
    split; [done |]. exists (None :: before), after. split; [done |].
    intros ck' [[=]|Hin]%elem_of_cons. by apply Hbefore.
Qed.

Lemma findCookie_None name (raw : list (option Cookie.t)) :
  findCookie name raw = None → ∀ ck, Some ck ∈ raw → Cookie.Name ck ≠ name.
Proof.
  induction raw as [|[c|] raw IH]; simpl.
  - intros _ ck Hin. by apply elem_of_nil in Hin.
  - destruct (String.eqb_spec (Cookie.Name c) name) as [Heq|Hne]; [done |].
    intros Hf ck [[= ->]|Hin]%elem_of_cons; [done | by apply IH].
  - intros Hf ck [[=]|Hin]%elem_of_cons. by apply IH.
Qed.

(** X18. On a usable session and for a name that is not blank,
    [GetCookie] returns the first cookie of the transport's answer whose
    name is exactly the name asked for, and that cookie is among those
    [GetCookies] returns for the same URL; it returns nil only when the
    answer holds no cookie of that name. *)
Theorem GetCookie_first_match (s : Session T) (c : T) (name : string)
    (targetURL : option URL) (w : World T) :
  self w = Some s → Client s = Some c → blank name = false →
  match (GetCookie name targetURL w).1 with
  | Some ck =>
      Cookie.Name ck = name
      ∧ (∃ before after,
           (client_GetCookies c targetURL).1 = before ++ Some ck :: after
           ∧ ∀ ck', Some ck' ∈ before → Cookie.Name ck' ≠ name)
      ∧ ∃ cookies, (GetCookies targetURL w).1 = Ok cookies ∧ ck ∈ cookies
  | None => ∀ ck, Some ck ∈ (client_GetCookies c targetURL).1 → Cookie.Name ck ≠ name
  end.
Proof.
  intros Hs Hc Hb.
  unfold GetCookie, GetCookies, with_client, bind, get_self, emit, set_self, ret.
  rewrite Hs, Hc, Hb. destruct (client_GetCookies c targetURL) as [raw c'] eqn:Hraw. simpl.
  destruct (findCookie name raw) as [ck|] eqn:Hf.
  - destruct (findCookie_Some name raw ck Hf) as (Hn & before & after & -> & Hbefore).
    split_and!; [done | by exists before, after |].
    eexists. split; [done |]. apply omap_validCookie_elem. split.
    + apply elem_of_app. right. by left.
    + by rewrite Hn.
  - by apply findCookie_None.
Qed.

(** X19. The setters and the single-cookie lookup check their arguments
    before they touch the transport: when [SetCookies],
    [SetCookiesWithOptions] or [SetProxy] returns an error, and when
    [GetCookie] is asked for a blank name, the world is left as it was. *)
Theorem setters_fail_without_calls (w : World T) :
  (∀ name value targetURL,
     (SetCookies name value targetURL w).1 ≠ None →
     (SetCookies name value targetURL w).2 = w)
  ∧ (∀ cookie targetURL,
       (SetCookiesWithOptions cookie targetURL w).1 ≠ None →
       (SetCookiesWithOptions cookie targetURL w).2 = w)
  ∧ (∀ proxy, (SetProxy proxy w).1 ≠ None → (SetProxy proxy w).2 = w)
  ∧ (∀ name targetURL, blank name = true → GetCookie name targetURL w = (None, w)).
Proof.
  unfold SetCookies, SetCookiesWithOptions, SetProxy, GetCookie, with_client,
    bind, get_self, emit, set_self, ret.
  destruct (self w) as [s|]; [|done].
  destruct (Client s) as [c|]; [|done]. split_and!.
  - intros name value targetURL. destruct (blank name); [done |].
    by destruct targetURL.
  - intros [cookie|] [u|]; try done. by destruct (blank (Cookie.Name cookie)).
  - intros proxy. destruct (blank proxy); [done |]. by destruct (url_Parse proxy).
  - by intros name targetURL ->.
Qed.

(** X20. On a usable session [SetCookies] succeeds exactly when the name
    is not blank and the URL is not nil; it then hands the transport one
    cookie for that URL, with the name and value as given, a max-age of
    one year, HttpOnly, SameSite=None, and Secure exactly when the scheme
    of the URL is [https]. *)
Theorem SetCookies_outcome (s : Session T) (c : T) (name value : string)
    (targetURL : option URL) (w : World T) :
  self w = Some s → Client s = Some c →
  ((SetCookies name value targetURL w).1 = None
   ↔ blank name = false ∧ is_Some targetURL)
  ∧ ∀ u, targetURL = Some u → blank name = false →
      ∃ cookie,
        trace (SetCookies name value targetURL w).2 = trace w ++ [EvSetCookies u [cookie]]
        ∧ self (SetCookies name value targetURL w).2
          = Some (set_Client s (Some (client_SetCookies c u [cookie])))
        ∧ Cookie.Name cookie = name ∧ Cookie.Value cookie = value
        ∧ Cookie.MaxAge cookie = 31536000
        ∧ Cookie.HttpOnly cookie = true
        ∧ Cookie.SameSite cookie = SameSiteNoneMode
        ∧ (Cookie.Secure cookie = true ↔ Scheme u = "https").
Proof.
  intros Hs Hc. unfold SetCookies, with_client, bind, get_self, emit, set_self, ret.
  rewrite Hs, Hc. split.
  - destruct (blank name); [by split; [|intros [? _]] |].
    destruct targetURL as [u|]; simpl; [by eauto |].
    split; [done | by intros [_ [? ?]]].
  - intros u -> ->. simpl. eexists. split_and!; try done. simpl.
    apply String.eqb_eq.
Qed.

(** X21. On a usable session [SetProxy] succeeds exactly when the proxy
    string is not blank and parses as a URL; it then passes the string to
    the transport as it was given, without trimming it. *)
Theorem SetProxy_outcome (s : Session T) (c : T) (proxy : string) (w : World T) :
  self w = Some s → Client s = Some c →
  ((SetProxy proxy w).1 = None
   ↔ blank proxy = false ∧ ∃ u, url_Parse proxy = Ok u)
  ∧ ((SetProxy proxy w).1 = None →
     trace (SetProxy proxy w).2 = trace w ++ [EvSetProxy proxy]
     ∧ self (SetProxy proxy w).2 = Some (set_Client s (Some (client_SetProxy c proxy)))).
Proof.
  intros Hs Hc. unfold SetProxy, with_client, bind, get_self, emit, set_self, ret.
  rewrite Hs, Hc. destruct (blank proxy).
  { split; [|done]. split; [done | by intros [? _]]. }
  destruct (url_Parse proxy) as [u|e]; simpl.
  - split; [|done]. split; [eauto | done].
  - split; [|done]. split; [done | by intros [_ [? ?]]].
Qed.

(** X22. No cookie or proxy method releases or reconfigures the session:
    after [SetCookies], [SetCookiesWithOptions], [SetProxy],
    [ClearCookies], [GetCookies] and [GetCookie] the session has the
    configuration and the usability it had before. *)
Theorem passthrough_keeps_session (w : World T) :
  (∀ name value targetURL,
     same_session (self (SetCookies name value targetURL w).2) (self w))
  ∧ (∀ cookie targetURL,
       same_session (self (SetCookiesWithOptions cookie targetURL w).2) (self w))
  ∧ (∀ proxy, same_session (self (SetProxy proxy w).2) (self w))
  ∧ same_session (self (ClearCookies w).2) (self w)
  ∧ (∀ targetURL, same_session (self (GetCookies targetURL w).2) (self w))
  ∧ (∀ name targetURL, same_session (self (GetCookie name targetURL w).2) (self w)).
Proof.
  unfold SetCookies, SetCookiesWithOptions, SetProxy, ClearCookies, GetCookies, GetCookie,
    with_client, bind, get_self, emit, set_self, ret.
  destruct w as [[s|] tw ew]; simpl; [|done].
  destruct (Client s) as [c|] eqn:Hc; [|done].
  assert (∀ c', same_session (Some (set_Client s (Some c'))) (Some s)) as Hsame.
  { intros c'. split; simpl; [done | by rewrite Hc]. }
  split_and!.
  - intros name value [u|]; destruct (blank name); simpl; done || apply Hsame.
  - intros [cookie|] [u|]; try done.
    destruct (blank (Cookie.Name cookie)); simpl; done || apply Hsame.
  - intros proxy. destruct (blank proxy); [done |].
    destruct (url_Parse proxy); simpl; done || apply Hsame.
  - destruct NewCookieJar; simpl; done || apply Hsame.
  - intros targetURL. destruct (client_GetCookies c targetURL). simpl. apply Hsame.
  - intros name targetURL. destruct (blank name); [done |].
    destruct (client_GetCookies c targetURL). simpl. apply Hsame.
Qed.

(** X23. On a usable session [Close] asks for a fresh cookie jar. When
    it gets one it installs it, releases the client and returns nil, and
    a second [Close] then returns nil without any call; when it gets none
    it returns an error and the session stays usable. *)
Theorem Close_outcome (s : Session T) (c : T) (w : World T) :
  self w = Some s → Client s = Some c →
  (∀ jar, NewCookieJar = Some jar →
     (Close w).1 = None
     ∧ trace (Close w).2 = trace w ++ [EvNewCookieJar; EvSetCookieJar]
     ∧ self (Close w).2 = Some (set_Client s None)
     ∧ Close (Close w).2 = (None, (Close w).2))
  ∧ (NewCookieJar = None →
     (Close w).1
     = Some "error clearing cookies during close: failed to create new cookie jar"
     ∧ IsValid (self (Close w).2) = true).
Proof.
  intros Hs Hc. split.
  - intros jar Hjar. rewrite (Close_valid s c jar) by done. simpl.
    split_and!; [done | | done | reflexivity].
    symmetry. apply (assoc_L (++) (trace w) [EvNewCookieJar] [EvSetCookieJar]).
  - intros Hjar.
    unfold Close, ClearCookies, with_client, bind, get_self, emit, set_self, ret.
    destruct w as [sw tw ew]. simpl in *. subst sw. simpl.
    rewrite Hc, Hjar. simpl. rewrite Hc. simpl. split; [reflexivity |].
    simpl. by rewrite Hc.
Qed.

End Passthrough.

(** ** The session factory *)

(** An override that [getStringOrDefault] honours: the empty string
    counts as no override. *)
Definition effective_override (o : option string) : option string :=
  match o with
  | Some v => if String.eqb v "" then None else Some v
  | None => None
  end.

Lemma getStringOrDefault_nonempty (value : option string) (d : string) :
  d ≠ "" → getStringOrDefault value d ≠ "".
Proof.
  intros Hd. unfold getStringOrDefault. destruct value as [v|]; [|done].
  by destruct (String.eqb_spec v "").
Qed.

Lemma getStringOrDefault_override (value : option string) (d : string) :
  getStringOrDefault (effective_override value) d = getStringOrDefault value d.
Proof.
  unfold getStringOrDefault, effective_override. destruct value as [v|]; [|done].
  destruct (String.eqb_spec v "") as [->|Hne]; [done |]. simpl.
  apply String.eqb_neq in Hne. by rewrite Hne.
Qed.

Section Factory.
Context {T : Type} `{Tr : !Transport T} `{Factory : !ClientFactory T}.

Lemma NewSession_usable_aux (config : option (SessionConfig.t ClientProfile))
    (s : Session T) :
  NewSession config = Ok s →
  is_Some (Client s)
  ∧ MaxRetries s
    = default 3 (SessionConfig.MaxRetries (default SessionConfig.zero config)).
Proof.
  unfold NewSession. destruct NewCookieJar as [jar|]; [|done].
  destruct (NewHttpClient _ _ jar) as [client|e]; [|done].
  intros [= <-]. simpl. split; [done |]. by destruct (SessionConfig.MaxRetries _).
Qed.

(** X24. A session that [NewSession] returns is usable and none of its
    three default header values is empty, whatever the configuration; it
    keeps the configured retry count as it is, even zero or negative, and
    uses three when none is configured. *)
Theorem NewSession_usable (config : option (SessionConfig.t ClientProfile))
    (s : Session T) :
  NewSession config = Ok s →
  IsValid (Some s) = true
  ∧ UserAgent s ≠ "" ∧ SecChUa s ≠ "" ∧ SecChUaPlatform s ≠ ""
  ∧ MaxRetries s
    = default 3 (SessionConfig.MaxRetries (default SessionConfig.zero config)).
Proof.
  intros Hnew. destruct (NewSession_usable_aux config s Hnew) as [Hc Hm].
  revert Hnew. unfold NewSession. destruct NewCookieJar as [jar|]; [|done].
  destruct (NewHttpClient _ _ jar) as [client|e]; [|done].
  intros [= <-]. simpl. split_and!; try by apply getStringOrDefault_nonempty.
  - done.
  - done.
Qed.

(** X25. [NewSession] treats a nil configuration as the empty one and an
    empty-string override as no override; [NewSessionLegacy] is
    [NewSession] without a profile and without a retry count, so its
    sessions always have a budget of three attempts. *)
Theorem NewSession_overrides (cfg : SessionConfig.t ClientProfile)
    (ua s_ua s_ua_platform : option string) (timeout : option Z) (s : Session T) :
  NewSession None = NewSession (Some SessionConfig.zero)
  ∧ NewSession (Some cfg)
    = NewSession
        (Some {| SessionConfig.UserAgent := effective_override (SessionConfig.UserAgent cfg);
                 SessionConfig.SecChUa := effective_override (SessionConfig.SecChUa cfg);
                 SessionConfig.SecChUaPlatform :=
                   effective_override (SessionConfig.SecChUaPlatform cfg);
                 SessionConfig.Timeout := SessionConfig.Timeout cfg;
                 SessionConfig.Profile := SessionConfig.Profile cfg;
                 SessionConfig.MaxRetries := SessionConfig.MaxRetries cfg |})
  ∧ (NewSessionLegacy ua s_ua s_ua_platform timeout = Ok s →
     MaxRetries s = 3 ∧ effectiveRetries (MaxRetries s) = 3).
Proof.
  split_and!.
  - done.
  - unfold NewSession. simpl. destruct NewCookieJar as [jar|]; [|done].
    destruct (NewHttpClient _ _ jar) as [client|e]; [|done].
    by rewrite !getStringOrDefault_override.
  - unfold NewSessionLegacy, NewSession. simpl.
    destruct NewCookieJar as [jar|]; [|done].
    destruct (NewHttpClient _ _ jar) as [client|e]; [|done].
    by intros [= <-].
Qed.

(** X26. [GetSessionInfo] makes no call. For a session fresh from
    [NewSession] it reports [valid] true and the configured retry count,
    not the budget in effect; once [Close] has returned nil it reports
    [valid] false and nothing else. *)
Theorem GetSessionInfo_lifecycle (w : World T) :
  (GetSessionInfo w).2 = w
  ∧ (∀ config s, NewSession config = Ok s → self w = Some s →
       (GetSessionInfo w).1 !! "valid" = Some (InfoBool true)
       ∧ (GetSessionInfo w).1 !! "max_retries"
         = Some (InfoInt (default 3 (SessionConfig.MaxRetries
                                       (default SessionConfig.zero config)))))
  ∧ (∀ w0, Close w0 = (None, w) → (GetSessionInfo w).1 = {[ "valid" := InfoBool false ]}).
Proof.
  unfold GetSessionInfo, bind, get_self, ret. split_and!.
  - destruct (self w) as [s|]; [|done]. by destruct (Client s).
  - intros config s Hnew Hs. rewrite Hs.
    destruct (NewSession_usable_aux config s Hnew) as [[c Hc] Hm].
    rewrite Hc. simpl. split; [done |].
    rewrite !lookup_insert_ne by done. by rewrite lookup_insert_eq, Hm.
  - intros w0 Hclose. apply Close_invalidates in Hclose.
    destruct (self w) as [s|]; [|done]. simpl in Hclose.
    destruct (Client s); [|done]. by rewrite bool_decide_eq_true_2 in Hclose.
Qed.

End Factory.

(** ** Further reference platforms and runs *)

Module Platforms.

(** The host of [scheme://host/path]: what lies between the second and
    the third slash. *)
Definition host_of (path : string) : string :=
  (Cut "/" (Cut "/" (Cut "/" path).2).2).1.

(** [Ref.Parse], with the host filled in. *)
Definition ParseHost (s : string) : Err URL :=
  match Ref.Parse s with
  | Ok u => Ok {| Scheme := Scheme u; Opaque := Opaque u; Host := host_of (Path u);
                  Path := Path u; ForceQuery := ForceQuery u;
                  RawQuery := RawQuery u; Fragment := Fragment u |}
  | Fail e => Fail e
  end.

(** A transport whose cookie store answers every URL with [cookies]. *)
Definition cookieTransport (cookies : list (option Cookie.t)) : Transport nat :=
  {| Jar := unit;
     NewCookieJar := Some tt;
     client_Do := λ n _, (Fail "offline", S n);
     client_GetCookies := λ n _, (cookies, n);
     client_SetCookies := λ n _ _, n;
     client_SetCookieJar := λ n _, n;
     client_SetProxy := λ n _, n |}.

(** A transport whose cookie-jar constructor returns nil. *)
Definition noJarTransport : Transport nat :=
  {| Jar := unit;
     NewCookieJar := None;
     client_Do := λ n _, (Fail "offline", S n);
     client_GetCookies := λ n _, ([], n);
     client_SetCookies := λ n _ _, n;
     client_SetCookieJar := λ n _, n;
     client_SetProxy := λ n _, n |}.

(** A client constructor that refuses a timeout that is not positive. *)
Definition factory (Tr : Transport nat) : ClientFactory nat :=
  {| ClientProfile := string;
     Chrome_133 := "Chrome_133";
     NewHttpClient := λ timeout _ _,
       if (0 <? timeout)%Z then Ok 0%nat else Fail "invalid timeout" |}.

Definition cookie (name value : string) : Cookie.t :=
  {| Cookie.Name := name; Cookie.Value := value; Cookie.Path := "/";
     Cookie.Domain := ""; Cookie.MaxAge := 0; Cookie.Secure := false;
     Cookie.HttpOnly := false; Cookie.SameSite := SameSiteNoneMode |}.

(** A store with a nil entry, a cookie with a blank name, and two
    cookies of the same name. *)
Definition jarContents : list (option Cookie.t) :=
  [Some (cookie "lang" "en"); None; Some (cookie " " "x");
   Some (cookie "sid" "first"); Some (cookie "sid" "second")].

Definition threeHeaders : gmap string string :=
  {[ "User-Agent" := "default"; "SEC-CH-UA" := ""; "Accept" := "*/*" ]}.

Definition emptyUrlGet : RequestOptions.t := Ref.request "  " None AnyNil.

(** A session with a budget of two attempts, not yet used. *)
Definition w2 : World nat := Ref.world (Some (Ref.session 2)).

Definition exampleURL : URL :=
  {| Scheme := "https"; Opaque := ""; Host := "example.com";
     Path := "https://example.com/"; ForceQuery := false;
     RawQuery := ""; Fragment := "" |}.

(** The session [NewSession] builds from a nil configuration. *)
Definition defaultSession : Session nat :=
  {| Client := Some 0%nat; UserAgent := user_agent; SecChUa := sech_ua;
     SecChUaPlatform := sech_ua_platform; MaxRetries := 3 |}.

End Platforms.

Lemma ParseHost_render (s : string) (u : URL) (q : string) :
  Platforms.ParseHost s = Ok u →
  q = RawQuery u ∨ query_safe q = true →
  ∃ u', Platforms.ParseHost (Ref.render (set_RawQuery u q)) = Ok u' ∧ RawQuery u' = q.
Proof.
  unfold Platforms.ParseHost. destruct (Ref.Parse s) as [u0|e] eqn:Hparse; [|done].
  intros [= <-] Hq. simpl in Hq.
  destruct (Ref_Parse_render s u0 q Hparse Hq) as (u' & Hu' & Hquery).
  change (Ref.render (set_RawQuery _ q)) with (Ref.render (set_RawQuery u0 q)).
  rewrite Hu'. eauto.
Qed.

(** The reference library with a parser that fills in the host. *)
Definition hostLib : GoLib :=
  {| range := λ V, map_to_list;
     range_perm := λ V m, reflexivity (map_to_list m);
     ToLower := ToLowerASCII;
     ToLower_ascii := λ s _, eq_refl;
     url_Parse := Platforms.ParseHost;
     URL_String := Ref.render;
     Parse_String := ParseHost_render;
     json_Marshal := Ref.Marshal;
     multipart_WriteField := Ref.WriteField;
     multipart_Close := Ref.CloseWriter;
     http_NewRequest := Ref.NewRequest;
     HeaderOrderKey := "Header-Order:";
     Sprintf_w := λ e, "%!w(" +:+ e +:+ ")" |}.

(** The reference library with maps visited in the opposite order. *)
Definition revLib : GoLib :=
  {| range := λ V m, reverse (map_to_list m);
     range_perm := λ V m, reverse_Permutation (map_to_list m);
     ToLower := ToLowerASCII;
     ToLower_ascii := λ s _, eq_refl;
     url_Parse := Ref.Parse;
     URL_String := Ref.render;
     Parse_String := Ref_Parse_render;
     json_Marshal := Ref.Marshal;
     multipart_WriteField := Ref.WriteField;
     multipart_Close := Ref.CloseWriter;
     http_NewRequest := Ref.NewRequest;
     HeaderOrderKey := "Header-Order:";
     Sprintf_w := λ e, "%!w(" +:+ e +:+ ")" |}.

Section MoreRuns.
Import Run Platforms.

Lemma formatHeaders_order_witness :
  dom formattedExample = dom threeHeaders ∪ {[ HeaderOrderKey (GoLib := refLib) ]}
  ∧ ∃ order, formattedExample !! HeaderOrderKey (GoLib := refLib) = Some order
             ∧ order ≡ₚ (map_to_list threeHeaders).*1 ∧ NoDup order.
Proof.
  apply (formatHeaders_order (Lib := refLib) (Ref.session 3) threeHeaders formattedExample).
  reflexivity.
Defined.

Lemma buildURL_order_independent_witness :
  buildURL (Lib := refLib) "https://example.com/s?q=go&a=1"
    (Some {[ "page" := "1"; "q" := "a b"; "z" := "9" ]})
  = buildURL (Lib := revLib) "https://example.com/s?q=go&a=1"
      (Some {[ "page" := "1"; "q" := "a b"; "z" := "9" ]}).
Proof. apply (buildURL_order_independent refLib revLib); intros; reflexivity. Defined.

Lemma ValidateURL_buildURL_witness :
  (∃ built, buildURL (Lib := hostLib) "https://example.com/" (Some {[ "q" := "go" ]})
            = Ok built)
  ∧ ∃ u, url_Parse (GoLib := hostLib) "https://example.com/" = Ok u
         ∧ Scheme u ≠ "" ∧ Host u ≠ "".
Proof.
  apply (ValidateURL_buildURL (Lib := hostLib) "https://example.com/"
           (Some {[ "q" := "go" ]})).
  reflexivity.
Defined.

Lemma backoff_is_linear_witness :
  backoff 2 = 100000000 * (2 + 1)
  ∧ 0 < backoff 2
  ∧ (2 + 1 < 92233720368 → backoff (2 + 1) = backoff 2 + 100000000)
  ∧ backoff 92233720368 < 0.
Proof. apply (backoff_is_linear 2). lia. Defined.

Lemma executeWithRetry_bounded_witness :
  ∃ events,
    reached w3 (executeWithRetry (Lib := refLib) (Tr := Ref.transport (Ref.flaky 1))
                  plainGet httpRequest w3).2 events
    ∧ (1 ≤ Z.to_nat (effectiveRetries (MaxRetries (Ref.session 3))))%nat
    ∧ (count_Do events ≤ Z.to_nat (effectiveRetries (MaxRetries (Ref.session 3))))%nat
    ∧ (count_Sleep events
       ≤ Z.to_nat (effectiveRetries (MaxRetries (Ref.session 3))) - 1)%nat
    ∧ length events = (count_Do events + count_Sleep events)%nat.
Proof.
  apply (executeWithRetry_bounded (Lib := refLib) (Tr := Ref.transport (Ref.flaky 1))
           (Ref.session 3) plainGet httpRequest w3).
  reflexivity.
Defined.

Lemma executeRequest_rejected_early_witness :
  trace (executeRequest (Lib := refLib) (Tr := Ref.transport Ref.boom)
           "GET" emptyUrlGet w3).2 = trace w3
  ∧ self (executeRequest (Lib := refLib) (Tr := Ref.transport Ref.boom)
            "GET" emptyUrlGet w3).2 = self w3.
Proof.
  apply (executeRequest_rejected_early (Lib := refLib) (Tr := Ref.transport Ref.boom)
           "GET" emptyUrlGet w3).
  - discriminate.
  - intros n e. change ("URL cannot be empty" ≠ String "m" ("ax retries (" +:+ Itoa n
                                                      +:+ ") exceeded: " +:+ e)).
    discriminate.
Defined.

Lemma public_request_bounded_witness :
  ∃ events,
    trace (Post (Lib := refLib) (Tr := Ref.transport (Ref.flaky 1)) multipartPost w3).2
    = trace w3 ++ events
    ∧ same_session
        (self (Post (Lib := refLib) (Tr := Ref.transport (Ref.flaky 1)) multipartPost w3).2)
        (self w3)
    ∧ (count_Do events
       ≤ Z.to_nat (effectiveRetries (from_option MaxRetries 0%Z (self w3))))%nat
    ∧ (count_Sleep events
       ≤ Z.to_nat (effectiveRetries (from_option MaxRetries 0%Z (self w3))) - 1)%nat
    ∧ length events = (count_Do events + count_Sleep events)%nat.
Proof.
  apply (public_request_bounded (Lib := refLib) (Tr := Ref.transport (Ref.flaky 1))
           Post multipartPost w3).
  apply list_elem_of_further, list_elem_of_here.
Defined.

Lemma executeWithRetry_all_fail_witness :
  ∃ reqs r,
    length reqs = (Z.to_nat (effectiveRetries (MaxRetries (Ref.session 2))) - 1)%nat
    ∧ Forall (λ r', ∃ hs, r' = Request.set_Header httpRequest hs) (reqs ++ [r])
    ∧ trace (executeWithRetry (Lib := refLib) (Tr := Ref.transport Ref.shaky)
               plainGet httpRequest w2).2
      = trace w2 ++ attempts (effectiveRetries (MaxRetries (Ref.session 2))) 0 (reqs ++ [r])
    ∧ count_Do (attempts (effectiveRetries (MaxRetries (Ref.session 2))) 0 (reqs ++ [r]))
      = Z.to_nat (effectiveRetries (MaxRetries (Ref.session 2)))
    ∧ count_Sleep (attempts (effectiveRetries (MaxRetries (Ref.session 2))) 0 (reqs ++ [r]))
      = (Z.to_nat (effectiveRetries (MaxRetries (Ref.session 2))) - 1)%nat
    ∧ (executeWithRetry (Lib := refLib) (Tr := Ref.transport Ref.shaky)
         plainGet httpRequest w2).1
      = emptyResponse
          ("max retries (" +:+ Itoa (effectiveRetries (MaxRetries (Ref.session 2)))
             +:+ ") exceeded: "
             +:+ attemptError
                   (client_Do (Transport := Ref.transport Ref.shaky)
                      (client_through (Tr := Ref.transport Ref.shaky) 0%nat reqs) r).1).
Proof.
  apply (executeWithRetry_all_fail (Lib := refLib) (Tr := Ref.transport Ref.shaky)
           (Ref.session 2) 0%nat plainGet httpRequest w2);
    [reflexivity | reflexivity | reflexivity |].
  vm_compute. repeat (intros _; split); reflexivity.
Defined.

Lemma public_request_success_shape_witness :
  ∃ (c : nat) (r : Request.t) (resp : HttpResponse.t) (body : string),
    (client_Do (Transport := Ref.transport (Ref.flaky 1)) c r).1 = Ok resp
    ∧ HttpResponse.ReadAll resp = Ok body
    ∧ last (trace (Get (Lib := refLib) (Tr := Ref.transport (Ref.flaky 1))
                     plainGet w3).2) = Some (EvDo r)
    ∧ self (Get (Lib := refLib) (Tr := Ref.transport (Ref.flaky 1)) plainGet w3).2
        ≫= Client
      = Some (client_Do (Transport := Ref.transport (Ref.flaky 1)) c r).2
    ∧ Response.StatusCode (Get (Lib := refLib) (Tr := Ref.transport (Ref.flaky 1))
                             plainGet w3).1 = HttpResponse.StatusCode resp
    ∧ Response.Body (Get (Lib := refLib) (Tr := Ref.transport (Ref.flaky 1))
                       plainGet w3).1 = Some body
    ∧ Response.Headers (Get (Lib := refLib) (Tr := Ref.transport (Ref.flaky 1))
                          plainGet w3).1 = HttpResponse.Header resp
    ∧ Response.Cookies (Get (Lib := refLib) (Tr := Ref.transport (Ref.flaky 1))
                          plainGet w3).1 = HttpResponse.Cookies resp
    ∧ Response.Url (Get (Lib := refLib) (Tr := Ref.transport (Ref.flaky 1))
                      plainGet w3).1
      = Some (default (Request.URL r) (HttpResponse.Location resp)).
Proof.
  apply (public_request_success_shape (Lib := refLib) (Tr := Ref.transport (Ref.flaky 1))
           Get plainGet w3);
    [apply list_elem_of_here | reflexivity].
Defined.

Lemma GetCookies_filtered_witness :
  ∃ cookies,
    (GetCookies (Tr := cookieTransport jarContents) (Some exampleURL) w3).1 = Ok cookies
    ∧ (∀ ck, ck ∈ cookies
             ↔ Some ck ∈ (client_GetCookies (Transport := cookieTransport jarContents)
                            0%nat (Some exampleURL)).1
               ∧ blank (Cookie.Name ck) = false)
    ∧ sublist (Some <$> cookies)
        (client_GetCookies (Transport := cookieTransport jarContents)
           0%nat (Some exampleURL)).1
    ∧ trace (GetCookies (Tr := cookieTransport jarContents) (Some exampleURL) w3).2
      = trace w3 ++ [EvGetCookies (Some exampleURL)].
Proof.
  apply (GetCookies_filtered (Tr := cookieTransport jarContents)
           (Ref.session 3) 0%nat (Some exampleURL) w3);
    reflexivity.
Defined.

Lemma GetCookie_first_match_witness :
  match (GetCookie (Tr := cookieTransport jarContents) "sid" (Some exampleURL) w3).1 with
  | Some ck =>
      Cookie.Name ck = "sid"
      ∧ (∃ before after,
           (client_GetCookies (Transport := cookieTransport jarContents)
              0%nat (Some exampleURL)).1 = before ++ Some ck :: after
           ∧ ∀ ck', Some ck' ∈ before → Cookie.Name ck' ≠ "sid")
      ∧ ∃ cookies,
          (GetCookies (Tr := cookieTransport jarContents) (Some exampleURL) w3).1
          = Ok cookies ∧ ck ∈ cookies
  | None =>
      ∀ ck, Some ck ∈ (client_GetCookies (Transport := cookieTransport jarContents)
                         0%nat (Some exampleURL)).1 → Cookie.Name ck ≠ "sid"
  end.
Proof.
  apply (GetCookie_first_match (Tr := cookieTransport jarContents)
           (Ref.session 3) 0%nat "sid" (Some exampleURL) w3);
    reflexivity.
Defined.

Lemma SetCookies_outcome_witness :
  ((SetCookies (Tr := Ref.transport Ref.boom) "sid" "abc" (Some exampleURL) w3).1 = None
   ↔ blank "sid" = false ∧ is_Some (Some exampleURL))
  ∧ ∀ u, Some exampleURL = Some u → blank "sid" = false →
      ∃ cookie,
        trace (SetCookies (Tr := Ref.transport Ref.boom) "sid" "abc" (Some exampleURL) w3).2
        = trace w3 ++ [EvSetCookies u [cookie]]
        ∧ self (SetCookies (Tr := Ref.transport Ref.boom) "sid" "abc"
                  (Some exampleURL) w3).2
          = Some (set_Client (Ref.session 3)
                    (Some (client_SetCookies (Transport := Ref.transport Ref.boom)
                             0%nat u [cookie])))
        ∧ Cookie.Name cookie = "sid" ∧ Cookie.Value cookie = "abc"
        ∧ Cookie.MaxAge cookie = 31536000
        ∧ Cookie.HttpOnly cookie = true
        ∧ Cookie.SameSite cookie = SameSiteNoneMode
        ∧ (Cookie.Secure cookie = true ↔ Scheme u = "https").
Proof.
  apply (SetCookies_outcome (Tr := Ref.transport Ref.boom)
           (Ref.session 3) 0%nat "sid" "abc" (Some exampleURL) w3);
    reflexivity.
Defined.

Lemma SetProxy_outcome_witness :
  ((SetProxy (Lib := refLib) (Tr := Ref.transport Ref.boom) " http://127.0.0.1:8080" w3).1
   = None
   ↔ blank " http://127.0.0.1:8080" = false
     ∧ ∃ u, url_Parse (GoLib := refLib) " http://127.0.0.1:8080" = Ok u)
  ∧ ((SetProxy (Lib := refLib) (Tr := Ref.transport Ref.boom)
        " http://127.0.0.1:8080" w3).1 = None →
     trace (SetProxy (Lib := refLib) (Tr := Ref.transport Ref.boom)
              " http://127.0.0.1:8080" w3).2
     = trace w3 ++ [EvSetProxy " http://127.0.0.1:8080"]
     ∧ self (SetProxy (Lib := refLib) (Tr := Ref.transport Ref.boom)
               " http://127.0.0.1:8080" w3).2
       = Some (set_Client (Ref.session 3)
                 (Some (client_SetProxy (Transport := Ref.transport Ref.boom) 0%nat
                          " http://127.0.0.1:8080")))).
Proof.
  apply (SetProxy_outcome (Lib := refLib) (Tr := Ref.transport Ref.boom)
           (Ref.session 3) 0%nat " http://127.0.0.1:8080" w3);
    reflexivity.
Defined.

Lemma Close_outcome_witness :
  (∀ jar, NewCookieJar (Transport := Ref.transport Ref.boom) = Some jar →
     (Close (Tr := Ref.transport Ref.boom) w3).1 = None
     ∧ trace (Close (Tr := Ref.transport Ref.boom) w3).2
       = trace w3 ++ [EvNewCookieJar; EvSetCookieJar]
     ∧ self (Close (Tr := Ref.transport Ref.boom) w3).2
       = Some (set_Client (Ref.session 3) None)
     ∧ Close (Tr := Ref.transport Ref.boom) (Close (Tr := Ref.transport Ref.boom) w3).2
       = (None, (Close (Tr := Ref.transport Ref.boom) w3).2))
  ∧ (NewCookieJar (Transport := Ref.transport Ref.boom) = None →
     (Close (Tr := Ref.transport Ref.boom) w3).1
     = Some "error clearing cookies during close: failed to create new cookie jar"
     ∧ IsValid (self (Close (Tr := Ref.transport Ref.boom) w3).2) = true).
Proof.
  apply (Close_outcome (Tr := Ref.transport Ref.boom) (Ref.session 3) 0%nat w3);
    reflexivity.
Defined.

Lemma NewSession_usable_witness :
  IsValid (Some defaultSession) = true
  ∧ UserAgent defaultSession ≠ "" ∧ SecChUa defaultSession ≠ ""
  ∧ SecChUaPlatform defaultSession ≠ ""
  ∧ MaxRetries defaultSession
    = default 3 (SessionConfig.MaxRetries
                   (default SessionConfig.zero
                      (None : option (SessionConfig.t
                                        (ClientProfile
                                           (ClientFactory := factory (Ref.transport Ref.boom))))))).
Proof.
  apply (NewSession_usable (Factory := factory (Ref.transport Ref.boom)) None defaultSession).
  reflexivity.
Defined.

(** [Close] when the cookie-jar constructor returns nil: the error is
    wrapped and the client is kept. *)
Example Close_without_jar :
  Close (Tr := noJarTransport) w3
  = (Some "error clearing cookies during close: failed to create new cookie jar",
     add_trace w3 [EvNewCookieJar]).
Proof. reflexivity. Qed.

(** [NewSession] with overrides: an empty user agent falls back to the
    default, a retry count of zero is kept, and a timeout the client
    constructor refuses is reported with the prefix of [NewSession]. *)
Example NewSession_with_overrides :
  NewSession (Factory := factory (Ref.transport Ref.boom))
    (Some {| SessionConfig.UserAgent := Some ""; SessionConfig.SecChUa := Some "CHUA";
             SessionConfig.SecChUaPlatform := None; SessionConfig.Timeout := Some 30;
             SessionConfig.Profile := None; SessionConfig.MaxRetries := Some 0 |})
  = Ok {| Client := Some 0%nat; UserAgent := user_agent; SecChUa := "CHUA";
          SecChUaPlatform := sech_ua_platform; MaxRetries := 0 |}
  ∧ NewSessionLegacy (Factory := factory (Ref.transport Ref.boom)) None None None (Some 0)
    = Fail "error creating TLS session: invalid timeout"
  ∧ NewSession (Factory := factory noJarTransport) None = Fail "failed to create cookie jar".
Proof. split_and!; reflexivity. Qed.

(** [GetSessionInfo] before and after [Close]. *)
Example GetSessionInfo_runs :
  (GetSessionInfo w3).1 !! "max_retries" = Some (InfoInt 3)
  ∧ (GetSessionInfo (Close (Tr := Ref.transport Ref.boom) w3).2).1
    = {[ "valid" := InfoBool false ]}.
Proof. split; reflexivity. Qed.

End MoreRuns.
